(** * The read benchmark of main.go, embedded in Rocq

    The program builds one storage client, attaches a retry policy, creates
    the bucket, starts [NumOfWorker] goroutines through an errgroup, each
    running [ReadObject], waits for them and reports.

    Calls into the Go libraries and into the remote service are modelled by
    their documented results; what the remote side answers in one execution is
    read from a [world].  The goroutines are modelled by an interleaving
    machine driven by a schedule. *)

From Stdlib Require Import QArith Ascii.
From stdpp Require Import gmap strings list.

Local Open Scope Z_scope.

(** ** Go values *)

(** An [error] is the text of [err.Error()]; the nil error is [None]. *)
Definition error : Type := string.

(** A Go [int] on the 64-bit platforms the benchmark runs on. *)
Definition is_int (z : Z) : Prop := - 2 ^ 63 <= z < 2 ^ 63.

(** ** strconv *)

Module strconv.

Definition digit_char (d : Z) : ascii := ascii_of_nat (48 + Z.to_nat d).

(** The digit loop of the formatter: the least significant digit is written
    first, in front of what is already there.  Twenty rounds are enough for
    every 64-bit magnitude. *)
Fixpoint format_digits (fuel : nat) (u : Z) (acc : string) : string :=
  match fuel with
  | O => acc
  | S fuel' =>
      let acc' := String (digit_char (u mod 10)) acc in
      if u <? 10 then acc' else format_digits fuel' (u / 10) acc'
  end.

(** [strconv.Itoa]: the decimal text of an int, with a leading minus sign
    for a negative one. *)
Definition Itoa (i : Z) : string :=
  if i <? 0 then String "-"%char (format_digits 20 (- i) "")
  else format_digits 20 i "".

(** Reading decimal text back, used to state what [Itoa] prints. *)
Definition digit_val (c : ascii) : Z := Z.of_nat (nat_of_ascii c) - 48.

Fixpoint decimal_value (s : string) (acc : Z) : Z :=
  match s with
  | EmptyString => acc
  | String c s' => decimal_value s' (10 * acc + digit_val c)
  end.

Definition is_digit (c : ascii) : bool :=
  (48 <=? nat_of_ascii c)%nat && (nat_of_ascii c <=? 57)%nat.

Definition signed_value (s : string) : Z :=
  match s with
  | String c s' =>
      if is_digit c then decimal_value s 0 else - decimal_value s' 0
  | EmptyString => 0
  end.

End strconv.

(** ** Package-level variables *)

Record config := {
  GrpcConnPoolSize : Z;
  MaxConnsPerHost : Z;
  MaxIdelConnsPerHost : Z;
  NumOfWorker : Z;
  NumOfReadCallPerWorker : Z;
  MaxRetryDuration : Z;          (* nanoseconds *)
  RetryMultiplier : Q;
  BucketName : string;
  ProjectName : string;
  ObjectNamePrefix : string;
  ObjectNameSuffix : string
}.

Definition second : Z := 1000000000.

(** The values the variables are initialised with. *)
Definition defaults : config := {|
  GrpcConnPoolSize := 1;
  MaxConnsPerHost := 100;
  MaxIdelConnsPerHost := 100;
  NumOfWorker := 48;
  NumOfReadCallPerWorker := 800;
  MaxRetryDuration := 30 * second;
  RetryMultiplier := 2 # 1;
  BucketName := "golang-grpc-test-princer-gcsfuse-us-central";
  ProjectName := "gcs-fuse-test";
  ObjectNamePrefix := "50mb/1_thread.";
  ObjectNameSuffix := ".0"
|}.

(** [ObjectNamePrefix + strconv.Itoa(workerId) + ObjectNameSuffix] *)
Definition objectName (cfg : config) (workerId : Z) : string :=
  ObjectNamePrefix cfg +:+ strconv.Itoa workerId +:+ ObjectNameSuffix cfg.

(** ** What one execution meets outside the program *)

(** The outcome of one pass through the body of the read loop. *)
Inductive read_outcome :=
| OpenFails (cause : error)      (* object.NewReader returns an error *)
| CopyFails (cause : error)      (* io.Copy returns an error *)
| ReadOk (elapsed : Z).          (* both succeed; elapsed = time.Since(start) *)

(** How the variable of a three-clause [for] loop is scoped: one variable for
    the whole loop (the language before Go 1.22) or a fresh one per iteration
    (from Go 1.22, when the module asks for it). *)
Inductive loopvar := PerLoop | PerIteration.

Record world := {
  w_protocol : string;                          (* the -client-protocol flag *)
  w_env : gmap string string;                   (* the process environment *)
  w_token : option error;                       (* error of GetTokenSource *)
  w_new_client : gmap string string -> option error;
                                                (* error of storage.NewClient *)
  w_create : option error;                      (* error of BucketHandle.Create *)
  w_read : nat -> nat -> read_outcome;          (* goroutine, attempt *)
  w_loopvar : loopvar
}.

(** What the program does that can be seen from outside, in order. *)
Inductive event :=
| EvSetRetry (receiver_is_nil : bool)
| EvBucketCreate (bucket project : string)
| EvGo (goroutine : nat)
| EvNewReader (object : string)
| EvCopy (object : string)
| EvClose (object : string)
| EvPrintDuration (elapsed : Z)                 (* fmt.Println(duration) *)
| EvPrintln (line : string)                     (* fmt.Println on stdout *)
| EvStderr (text : string).                     (* fmt.Fprintf(os.Stderr, ..) *)

(** A call either returns, or ends the process: [log.Fatalf] exits with
    status 1 after logging, a nil dereference panics. *)
Inductive outcome (A : Type) :=
| Ret (a : A)
| Fatal (msg : string)
| Panic (msg : string).
Arguments Ret {A} a.
Arguments Fatal {A} msg.
Arguments Panic {A} msg.

(** ** fmt *)

Module fmt.

(** The text the verb [%v] prints for an error operand. *)
Definition verb_v (err : option error) : string :=
  match err with Some e => e | None => "<nil>" end.

(** The text the verb [%w] prints for an error operand; a nil operand is
    reported as a bad verb. *)
Definition verb_w (err : option error) : string :=
  match err with Some e => e | None => "%!w(<nil>)" end.

End fmt.

(** ** os *)

Module os.

Fixpoint has_char (c : ascii) (s : string) : bool :=
  match s with
  | EmptyString => false
  | String c' s' => Ascii.eqb c c' || has_char c s'
  end.

(** [os.Setenv] refuses an empty key, a key holding '=' or NUL and a value
    holding NUL. *)
Definition Setenv (key value : string) (env : gmap string string)
  : gmap string string * option error :=
  if String.eqb key ""
     || has_char "="%char key || has_char "000"%char key
     || has_char "000"%char value
  then (env, Some ("setenv: invalid argument"))
  else (<[key := value]> env, None).

Definition Unsetenv (key : string) (env : gmap string string)
  : gmap string string * option error :=
  (delete key env, None).

End os.

(** ** storage *)

Module storage.

Inductive transport :=
| Http1 (maxConnsPerHost maxIdleConnsPerHost : Z)   (* TLSNextProto emptied *)
| Http2 (maxConnsPerHost : Z).          (* DisableKeepAlives, ForceAttemptHTTP2 *)

Inductive client_option :=
| WithHTTPClient (base : transport) (userAgent : string) (timeout : Z)
| WithGRPCConnectionPool (size : Z).

Record backoff := { Max : Z; Multiplier : Q }.

Inductive retry_policy := RetryAlways.

Record Client := {
  c_option : client_option;
  c_retry : option (backoff * retry_policy)
}.

Record BucketHandle := { b_client : Client; b_name : string }.

(** [storage.NewClient] returns either a client and a nil error, or a nil
    client and the error. *)
Definition NewClient (w : world) (env : gmap string string)
    (o : client_option) : option Client * option error :=
  match w_new_client w env with
  | Some e => (None, Some e)
  | None => (Some {| c_option := o; c_retry := None |}, None)
  end.

(** [Client.SetRetry] has a pointer receiver and reads and writes a field
    of it: on a nil receiver it panics. *)
Definition SetRetry (c : option Client) (b : backoff) (p : retry_policy)
  : outcome Client :=
  match c with
  | None => Panic "invalid memory address or nil pointer dereference"
  | Some c => Ret {| c_option := c_option c; c_retry := Some (b, p) |}
  end.

Definition Bucket (c : Client) (name : string) : BucketHandle :=
  {| b_client := c; b_name := name |}.

End storage.

(** ** The functions of main.go *)

(** [GetTokenSource] is defined in another file of the package; its result
    comes from the world. *)
Definition GetTokenSource (w : world) : option error := w_token w.

Definition CreateHttpClient (cfg : config) (w : world) (isHttp2 : bool)
  : option storage.Client * option error :=
  let transport :=
    if negb isHttp2
    then storage.Http1 (MaxConnsPerHost cfg) (MaxIdelConnsPerHost cfg)
    else storage.Http2 (MaxConnsPerHost cfg) in
  match GetTokenSource w with
  | Some err => (None, Some ("while generating tokenSource, " +:+ fmt.verb_v (Some err)))
  | None =>
      storage.NewClient w (w_env w) (storage.WithHTTPClient transport "prince" 0)
  end.

Definition CreateGrpcClient (cfg : config) (w : world) (env : gmap string string)
  : outcome (gmap string string * (option storage.Client * option error)) :=
  match os.Setenv "STORAGE_USE_GRPC" "gRPC" env with
  | (_, Some err) => Fatal ("error setting grpc env var: " +:+ err)
  | (env1, None) =>
    match os.Setenv "GOOGLE_CLOUD_ENABLE_DIRECT_PATH_XDS" "true" env1 with
    | (_, Some err) => Fatal ("error setting direct path env var: " +:+ err)
    | (env2, None) =>
      let result :=
        storage.NewClient w env2
          (storage.WithGRPCConnectionPool (GrpcConnPoolSize cfg)) in
      match os.Unsetenv "STORAGE_USE_GRPC" env2 with
      | (_, Some err) => Fatal ("error while unsetting grpc env var: " +:+ err)
      | (env3, None) =>
        match os.Unsetenv "GOOGLE_CLOUD_ENABLE_DIRECT_PATH_XDS" env3 with
        | (_, Some err) =>
            Fatal ("error while unsetting direct path env var: " +:+ err)
        | (env4, None) => Ret (env4, result)
        end
      end
    end
  end.

(** The body of the loop of [ReadObject]: one read of the object.  The
    result is what the body returns with, [None] when it falls through to the
    next iteration. *)
Definition read_once (objectName : string) (o : read_outcome)
  : list event * option error :=
  match o with
  | OpenFails err =>
      ([EvNewReader objectName],
       Some ("while creating reader object: " +:+ fmt.verb_v (Some err)))
  | CopyFails err =>
      ([EvNewReader objectName; EvCopy objectName],
       Some ("while reading and discarding content: " +:+ fmt.verb_v (Some err)))
  | ReadOk elapsed =>
      ([EvNewReader objectName; EvCopy objectName;
        EvPrintDuration elapsed; EvClose objectName], None)
  end.

(** [for i := 0; i < NumOfReadCallPerWorker; i++]: [todo] iterations are
    left, [i] is the current one. *)
Fixpoint read_loop (objectName : string) (reads : nat -> read_outcome)
    (todo i : nat) : list event * option error :=
  match todo with
  | O => ([], None)
  | S todo' =>
      match read_once objectName (reads i) with
      | (evs, Some err) => (evs, Some err)
      | (evs, None) =>
          let '(evs', r) := read_loop objectName reads todo' (S i) in
          (evs ++ evs', r)
      end
  end.

(** The worker: the object name is computed once, then the loop runs; the
    outcomes of its reads, attempt by attempt, are [reads]. *)
Definition ReadObject (cfg : config) (workerId : Z) (reads : nat -> read_outcome)
  : list event * option error :=
  read_loop (objectName cfg workerId) reads
    (Z.to_nat (NumOfReadCallPerWorker cfg)) 0.

(** ** The goroutines *)

(** Where a goroutine started by [eG.Go] stands in its function. *)
Inductive task_pc :=
| TIdx                          (* before   idx := i *)
| TCall                         (* before   err = ReadObject(ctx, idx, bucketHandle) *)
| TCheck                        (* before   if err != nil *)
| TWrap                         (* before   err = fmt.Errorf("...%w", err) *)
| TReturn                       (* before   return err *)
| TDone (ret : option error).   (* returned ret to the group *)

Record task := {
  t_pc : task_pc;
  t_i : Z;               (* the value of the iteration's own i, where there is one *)
  t_idx : option Z       (* idx, once assigned *)
}.

(** Where main stands after the setup. *)
Inductive main_pc :=
| MLoop                         (* at the test  i < NumOfWorker *)
| MIncr                         (* at  i++ *)
| MWait                         (* in  eG.Wait() *)
| MReport                       (* at  if err == nil *)
| MReturned.                    (* main has returned *)

Record state := {
  s_pc : main_pc;
  s_i : Z;                         (* the loop variable *)
  s_err : option error;            (* the variable err of main, shared *)
  s_tasks : list task;             (* goroutines, in the order of eG.Go *)
  s_group_err : option error;      (* the err field of eG, set once *)
  s_returns : list (option error); (* what the goroutines returned, in order *)
  s_trace : list event
}.

Inductive actor := Main | Task (k : nat).

Definition success_line : string := "Read benchmark completed successfully!".

Definition all_done (ts : list task) : bool :=
  forallb (fun t => match t_pc t with TDone _ => true | _ => false end) ts.

Definition step_main (cfg : config) (s : state) : option state :=
  match s_pc s with
  | MLoop =>
      if s_i s <? NumOfWorker cfg
      then Some {| s_pc := MIncr; s_i := s_i s; s_err := s_err s;
                   s_tasks := s_tasks s ++
                     [{| t_pc := TIdx; t_i := s_i s; t_idx := None |}];
                   s_group_err := s_group_err s; s_returns := s_returns s;
                   s_trace := s_trace s ++ [EvGo (length (s_tasks s))] |}
      else Some {| s_pc := MWait; s_i := s_i s; s_err := s_err s;
                   s_tasks := s_tasks s; s_group_err := s_group_err s;
                   s_returns := s_returns s; s_trace := s_trace s |}
  | MIncr =>
      Some {| s_pc := MLoop; s_i := s_i s + 1; s_err := s_err s;
              s_tasks := s_tasks s; s_group_err := s_group_err s;
              s_returns := s_returns s; s_trace := s_trace s |}
  | MWait =>
      if all_done (s_tasks s)
      then Some {| s_pc := MReport; s_i := s_i s; s_err := s_group_err s;
                   s_tasks := s_tasks s; s_group_err := s_group_err s;
                   s_returns := s_returns s; s_trace := s_trace s |}
      else None
  | MReport =>
      let ev :=
        match s_err s with
        | None => EvPrintln success_line
        | Some err => EvStderr ("Error while running benchmark: " +:+ err)
        end in
      Some {| s_pc := MReturned; s_i := s_i s; s_err := s_err s;
              s_tasks := s_tasks s; s_group_err := s_group_err s;
              s_returns := s_returns s; s_trace := s_trace s ++ [ev] |}
  | MReturned => None
  end.

(** One step of goroutine [k]; every step reads or writes the shared
    variables at most once, apart from the assignment of [TWrap], which
    reads and writes [err]. *)
Definition step_task (cfg : config) (w : world) (k : nat) (s : state)
  : option state :=
  match s_tasks s !! k with
  | None => None
  | Some t =>
      let put (t' : task) (err : option error) (evs : list event) :=
        {| s_pc := s_pc s; s_i := s_i s; s_err := err;
           s_tasks := <[k := t']> (s_tasks s);
           s_group_err := s_group_err s; s_returns := s_returns s;
           s_trace := s_trace s ++ evs |} in
      match t_pc t with
      | TIdx =>
          let i := match w_loopvar w with
                   | PerLoop => s_i s
                   | PerIteration => t_i t
                   end in
          Some (put {| t_pc := TCall; t_i := t_i t; t_idx := Some i |}
                    (s_err s) [])
      | TCall =>
          let '(evs, r) := ReadObject cfg (default 0 (t_idx t)) (w_read w k) in
          Some (put {| t_pc := TCheck; t_i := t_i t; t_idx := t_idx t |} r evs)
      | TCheck =>
          let next := match s_err s with Some _ => TWrap | None => TReturn end in
          Some (put {| t_pc := next; t_i := t_i t; t_idx := t_idx t |}
                    (s_err s) [])
      | TWrap =>
          Some (put {| t_pc := TReturn; t_i := t_i t; t_idx := t_idx t |}
                    (Some ("while reading object: " +:+ fmt.verb_w (s_err s))) [])
      | TReturn =>
          let ret := s_err s in
          Some {| s_pc := s_pc s; s_i := s_i s; s_err := s_err s;
                  s_tasks := <[k := {| t_pc := TDone ret; t_i := t_i t;
                                       t_idx := t_idx t |}]> (s_tasks s);
                  s_group_err :=
                    match s_group_err s with
                    | Some first => Some first
                    | None => ret
                    end;
                  s_returns := s_returns s ++ [ret];
                  s_trace := s_trace s |}
      | TDone _ => None
      end
  end.

Definition step (cfg : config) (w : world) (a : actor) (s : state)
  : option state :=
  match a with
  | Main => step_main cfg s
  | Task k => step_task cfg w k s
  end.

(** Running a schedule; an actor that cannot move is passed over. *)
Fixpoint run (cfg : config) (w : world) (sched : list actor) (s : state)
  : state :=
  match sched with
  | [] => s
  | a :: sched' => run cfg w sched' (default s (step cfg w a s))
  end.

(** ** main *)

(** The client and its error, as the two branches on the flag give them. *)
Definition create_client (cfg : config) (w : world)
  : outcome (gmap string string * (option storage.Client * option error)) :=
  if String.eqb (w_protocol w) "http"
  then Ret (w_env w, CreateHttpClient cfg w false)
  else CreateGrpcClient cfg w (w_env w).

(** [fmt.Errorf] only builds an error value; a statement that calls it and
    drops the value does nothing. *)
Definition dropped_Errorf (prefix : string) (err : option error) : unit := tt.

(** main up to the loop that starts the goroutines. *)
Definition main_setup (cfg : config) (w : world) : list event * outcome state :=
  match create_client cfg w with
  | Fatal msg => ([], Fatal msg)
  | Panic msg => ([], Panic msg)
  | Ret (env, (client, err)) =>
      let _ := match err with
               | Some _ => dropped_Errorf "while creating the client: " err
               | None => tt
               end in
      let b := {| storage.Max := MaxRetryDuration cfg;
                  storage.Multiplier := RetryMultiplier cfg |} in
      match storage.SetRetry client b storage.RetryAlways with
      | Fatal msg => ([EvSetRetry (bool_decide (client = None))], Fatal msg)
      | Panic msg => ([EvSetRetry (bool_decide (client = None))], Panic msg)
      | Ret client' =>
          let bucketHandle := storage.Bucket client' (BucketName cfg) in
          let err := w_create w in
          let _ := match err with
                   | Some _ => dropped_Errorf "while creating the bucket: " err
                   | None => tt
                   end in
          let evs := [EvSetRetry false;
                      EvBucketCreate (storage.b_name bucketHandle)
                                     (ProjectName cfg)] in
          (evs,
           Ret {| s_pc := MLoop; s_i := 0; s_err := err; s_tasks := [];
                  s_group_err := None; s_returns := []; s_trace := evs |})
      end
  end.

Definition main (cfg : config) (w : world) (sched : list actor)
  : list event * outcome state :=
  match main_setup cfg w with
  | (evs, Ret s0) => let s := run cfg w sched s0 in (s_trace s, Ret s)
  | crashed => crashed
  end.

(** ** Reading a trace *)

Definition is_close (e : event) : bool :=
  match e with EvClose _ => true | _ => false end.
Definition is_open (e : event) : bool :=
  match e with EvNewReader _ => true | _ => false end.
Definition is_duration (e : event) : bool :=
  match e with EvPrintDuration _ => true | _ => false end.
Definition is_go (e : event) : bool :=
  match e with EvGo _ => true | _ => false end.

Definition count (p : event -> bool) (evs : list event) : nat :=
  length (filter (fun e => p e = true) evs).

(** The status lines on standard output and the texts on standard error. *)
Definition stdout_lines (evs : list event) : list string :=
  omap (fun e => match e with EvPrintln l => Some l | _ => None end) evs.
Definition stderr_texts (evs : list event) : list string :=
  omap (fun e => match e with EvStderr l => Some l | _ => None end) evs.

(** The first error among what the goroutines returned. *)
Fixpoint first_error (rets : list (option error)) : option error :=
  match rets with
  | [] => None
  | Some e :: _ => Some e
  | None :: rets' => first_error rets'
  end.

(** ** Worlds and schedules used in examples *)

Definition quiet_world (lv : loopvar) (reads : nat -> nat -> read_outcome)
  : world := {|
  w_protocol := "http"; w_env := ∅; w_token := None;
  w_new_client := fun _ => None; w_create := None;
  w_read := reads; w_loopvar := lv
|}.

(** main runs alone up to [eG.Wait], then goroutine 0 runs to its end, then
    goroutine 1, and so on, then main finishes. *)
Definition sequential_schedule (workers : nat) : list actor :=
  replicate (2 * workers + 1) Main
  ++ flat_map (fun k => replicate 5 (Task k)) (seq 0 workers)
  ++ [Main; Main].

(** No status line and no error text has been written yet. *)
Definition quiet (evs : list event) : Prop :=
  stdout_lines evs = [] /\ stderr_texts evs = [].

(** The one event of the final report, from what the goroutines returned. *)
Definition report_of (rets : list (option error)) : event :=
  match first_error rets with
  | None => EvPrintln success_line
  | Some err => EvStderr ("Error while running benchmark: " +:+ err)
  end.

(** The same world with another answer to the bucket creation. *)
Definition with_create (w : world) (r : option error) : world := {|
  w_protocol := w_protocol w; w_env := w_env w; w_token := w_token w;
  w_new_client := w_new_client w; w_create := r;
  w_read := w_read w; w_loopvar := w_loopvar w
|}.

(** The spec's scenario: two workers, three reads each. *)
Definition two_by_three : config := {|
  GrpcConnPoolSize := 1; MaxConnsPerHost := 100; MaxIdelConnsPerHost := 100;
  NumOfWorker := 2; NumOfReadCallPerWorker := 3;
  MaxRetryDuration := 30 * second; RetryMultiplier := 2 # 1;
  BucketName := "golang-grpc-test-princer-gcsfuse-us-central";
  ProjectName := "gcs-fuse-test";
  ObjectNamePrefix := "50mb/1_thread."; ObjectNameSuffix := ".0"
|}.

(** Worker 0 fails in its second read, every other read takes 1ms. *)
Definition second_read_of_0_fails (k attempt : nat) : read_outcome :=
  match k, attempt with
  | O, 1%nat => CopyFails "unexpected EOF"
  | _, _ => ReadOk 1000000
  end.

(** ** Reading what a worker did *)

(** The number of reads that succeed before the first failure, among the
    [todo] outcomes from attempt [i] on. *)
Fixpoint leading_ok (reads : nat -> read_outcome) (todo i : nat) : nat :=
  match todo with
  | O => O
  | S todo' =>
      match reads i with
      | ReadOk _ => S (leading_ok reads todo' (S i))
      | _ => O
      end
  end.

(** The two calls a read can fail in. *)
Inductive call_type := ReaderOpen | StreamCopy.

Definition failed_call (o : read_outcome) : option call_type :=
  match o with
  | OpenFails _ => Some ReaderOpen
  | CopyFails _ => Some StreamCopy
  | ReadOk _ => None
  end.

(** The call type as the coordinator can read it off an error of a worker. *)
Definition call_type_of (err : error) : option call_type :=
  if String.prefix "while creating reader object: " err then Some ReaderOpen
  else if String.prefix "while reading and discarding content: " err
       then Some StreamCopy
       else None.

(** A world where the token source cannot be built. *)
Definition no_credentials : world := {|
  w_protocol := "http"; w_env := ∅;
  w_token := Some "google: could not find default credentials";
  w_new_client := fun _ => None; w_create := None;
  w_read := fun _ _ => ReadOk 1000000; w_loopvar := PerLoop
|}.

(** A world where the gRPC client cannot be built. *)
Definition no_grpc : world := {|
  w_protocol := "grpc"; w_env := ∅; w_token := None;
  w_new_client := fun _ => Some "dialing: context deadline exceeded";
  w_create := None;
  w_read := fun _ _ => ReadOk 1000000; w_loopvar := PerLoop
|}.

(** A world where the caller may not create buckets. *)
Definition forbidden : world :=
  with_create (quiet_world PerLoop (fun _ _ => ReadOk 1000000))
              (Some "googleapi: Error 403: Forbidden").

(** A world where no object can be opened, with one [i] for the whole loop. *)
Definition nothing_to_read : world :=
  quiet_world PerLoop (fun _ _ => OpenFails "storage: object doesn't exist").

(** main runs alone up to [eG.Wait], then the goroutines run one after the
    other; main has not yet gone on. *)
Definition workers_schedule (workers : nat) : list actor :=
  replicate (2 * workers + 1) Main
  ++ flat_map (fun k => replicate 5 (Task k)) (seq 0 workers).

(** Every goroutine runs to its end as soon as it is started. *)
Definition eager_schedule (workers : nat) : list actor :=
  flat_map (fun k => Main :: replicate 5 (Task k) ++ [Main]) (seq 0 workers)
  ++ [Main; Main; Main].

(** Goroutine 0 comes back from ReadObject, then goroutine 1 does, and only
    then goroutine 0 looks at [err]. *)
Definition overtaking_schedule : list actor :=
  replicate 5 Main
  ++ [Task 0; Task 0; Task 1; Task 1]
  ++ replicate 3 (Task 0) ++ replicate 3 (Task 1)
  ++ [Main; Main].

(** The state main is in, where it is still running. *)
Definition idle : state := {|
  s_pc := MLoop; s_i := 0; s_err := None; s_tasks := [];
  s_group_err := None; s_returns := []; s_trace := []
|}.

Definition state_of (r : list event * outcome state) : state :=
  match snd r with Ret s => s | _ => idle end.

(** ** Invariants *)

(** The group holds the first error returned so far; nothing is reported
    before main is past [eG.Wait], which it passes only when every goroutine
    has returned; and once main has returned, exactly the report is there. *)
Definition inv (s : state) : Prop :=
  s_group_err s = first_error (s_returns s)
  /\ match s_pc s with
     | MLoop | MIncr | MWait => quiet (s_trace s)
     | MReport =>
         quiet (s_trace s) /\ s_err s = s_group_err s
         /\ all_done (s_tasks s) = true
     | MReturned =>
         all_done (s_tasks s) = true
         /\ exists evs, quiet evs
                        /\ s_trace s = evs ++ [report_of (s_returns s)]
     end.

(** Two states that agree on everything but the variable [err], and on
    [err] too as soon as some goroutine has come back from ReadObject or main
    is past [eG.Wait]. *)
Definition same_but_err (s s' : state) : Prop :=
  s_pc s = s_pc s' /\ s_i s = s_i s' /\ s_tasks s = s_tasks s'
  /\ s_group_err s = s_group_err s' /\ s_returns s = s_returns s'
  /\ s_trace s = s_trace s'
  /\ (s_err s = s_err s'
      \/ (Forall (fun t => t_pc t = TIdx \/ t_pc t = TCall) (s_tasks s)
          /\ match s_pc s with MLoop | MIncr | MWait => True | _ => False end)).

(** What holds of the loop and of the goroutines in every reachable state:
    goroutine [k] was started in iteration [k]; main leaves the loop with
    [NumOfWorker] goroutines started; and where every iteration has its own
    [i], goroutine [k] can only read [k] into [idx]. *)
Definition launch_inv (cfg : config) (w : world) (s : state) : Prop :=
  match s_pc s with
  | MLoop => Z.of_nat (length (s_tasks s)) = s_i s
             /\ s_i s <= Z.max 0 (NumOfWorker cfg)
  | MIncr => Z.of_nat (length (s_tasks s)) = s_i s + 1
             /\ s_i s < NumOfWorker cfg
  | _ => Z.of_nat (length (s_tasks s)) = Z.max 0 (NumOfWorker cfg)
  end
  /\ forall k t, s_tasks s !! k = Some t ->
       t_i t = Z.of_nat k
       /\ (w_loopvar w = PerIteration ->
           t_idx t = None \/ t_idx t = Some (Z.of_nat k)).

(** ** Reading more off a trace *)

Definition is_copy (e : event) : bool :=
  match e with EvCopy _ => true | _ => false end.

(** The durations printed, in the order of printing. *)
Definition durations (evs : list event) : list Z :=
  omap (fun e => match e with EvPrintDuration d => Some d | _ => None end) evs.

Definition elapsed_of (o : read_outcome) : option Z :=
  match o with ReadOk elapsed => Some elapsed | _ => None end.

(** The objects the events of readers are about. *)
Definition event_objects (evs : list event) : list string :=
  omap (fun e => match e with
                 | EvNewReader o | EvCopy o | EvClose o => Some o
                 | _ => None
                 end) evs.

(** One for an error of the stream copy, zero otherwise. *)
Definition copy_failures (r : option error) : nat :=
  match r with
  | Some err =>
      match call_type_of err with Some StreamCopy => 1%nat | _ => 0%nat end
  | None => 0%nat
  end.

(** The variables with another number of reads per worker. *)
Definition with_reads (cfg : config) (n : Z) : config := {|
  GrpcConnPoolSize := GrpcConnPoolSize cfg;
  MaxConnsPerHost := MaxConnsPerHost cfg;
  MaxIdelConnsPerHost := MaxIdelConnsPerHost cfg;
  NumOfWorker := NumOfWorker cfg;
  NumOfReadCallPerWorker := n;
  MaxRetryDuration := MaxRetryDuration cfg;
  RetryMultiplier := RetryMultiplier cfg;
  BucketName := BucketName cfg;
  ProjectName := ProjectName cfg;
  ObjectNamePrefix := ObjectNamePrefix cfg;
  ObjectNameSuffix := ObjectNameSuffix cfg
|}.

(** A world that asks for the gRPC client and can build it. *)
Definition grpc_world : world := {|
  w_protocol := "grpc"; w_env := {["HOME" := "/root"]}; w_token := None;
  w_new_client := fun _ => None; w_create := None;
  w_read := fun _ _ => ReadOk 1000000; w_loopvar := PerLoop
|}.

(** What a goroutine returns for what its ReadObject returned, where no
    other goroutine writes [err] in between. *)
Definition wrapped (r : option error) : option error :=
  match r with
  | Some err => Some ("while reading object: " +:+ err)
  | None => None
  end.

(** An index a goroutine may read: every goroutine was started in the
    iteration of its number and, once it has read its index, the index lies
    between its number and the number of workers. *)
Definition index_inv (cfg : config) (s : state) : Prop :=
  0 <= s_i s <= Z.max 0 (NumOfWorker cfg)
  /\ match s_pc s with
     | MIncr => Z.of_nat (length (s_tasks s)) = s_i s + 1
                /\ s_i s < NumOfWorker cfg
     | _ => Z.of_nat (length (s_tasks s)) = s_i s
     end
  /\ forall k t, s_tasks s !! k = Some t ->
       t_i t = Z.of_nat k
       /\ forall idx, t_idx t = Some idx ->
            Z.of_nat k <= idx <= Z.max 0 (NumOfWorker cfg).

(** A state in which goroutine 0 has returned an error and goroutine 1 is
    about to call ReadObject. *)
Definition one_returned : state := {|
  s_pc := MWait; s_i := 2; s_err := None;
  s_tasks := [{| t_pc := TDone (Some "first"); t_i := 0; t_idx := Some 0 |};
              {| t_pc := TCall; t_i := 1; t_idx := Some 1 |}];
  s_group_err := Some "first"; s_returns := [Some "first"]; s_trace := []
|}.

(** The index goroutine-side [idx := i] reads in state [s], for a goroutine
    whose own [i] is [own]. *)
Definition index_read (w : world) (s : state) (own : Z) : Z :=
  match w_loopvar w with PerLoop => s_i s | PerIteration => own end.

(** The state after goroutine [k], which is [t] and reads index [idx], has
    run from its start to its end with no other goroutine in between. *)
Definition after_goroutine (cfg : config) (w : world) (k : nat) (t : task)
    (idx : Z) (s : state) : state :=
  let res := ReadObject cfg idx (w_read w k) in
  {| s_pc := s_pc s; s_i := s_i s; s_err := wrapped (snd res);
     s_tasks := <[k := {| t_pc := TDone (wrapped (snd res)); t_i := t_i t;
                          t_idx := Some idx |}]> (s_tasks s);
     s_group_err := match s_group_err s with
                    | Some first => Some first
                    | None => wrapped (snd res)
                    end;
     s_returns := s_returns s ++ [wrapped (snd res)];
     s_trace := s_trace s ++ fst res |}.

(** One turn of the launch loop in which the goroutine it starts runs to its
    end before main goes on to [i++]. *)
Definition eager_turn (cfg : config) (w : world) (s : state) : state :=
  let k := length (s_tasks s) in
  let res := ReadObject cfg (s_i s) (w_read w k) in
  {| s_pc := MLoop; s_i := s_i s + 1; s_err := wrapped (snd res);
     s_tasks := s_tasks s ++ [{| t_pc := TDone (wrapped (snd res));
                                 t_i := s_i s; t_idx := Some (s_i s) |}];
     s_group_err := match s_group_err s with
                    | Some first => Some first
                    | None => wrapped (snd res)
                    end;
     s_returns := s_returns s ++ [wrapped (snd res)];
     s_trace := (s_trace s ++ [EvGo k]) ++ fst res |}.

(** What worker [k] does and returns when it is given its own index. *)
Definition worker_result (cfg : config) (w : world) (k : nat)
  : list event * option error :=
  ReadObject cfg (Z.of_nat k) (w_read w k).

Definition worker_returns (cfg : config) (w : world) (n : nat)
  : list (option error) :=
  map (fun k => wrapped (snd (worker_result cfg w k))) (seq 0 n).

(** The state after [j] such turns, from the state main sets up. *)
Definition sequential_state (cfg : config) (w : world) (evs0 : list event)
    (j : nat) : state :=
  {| s_pc := MLoop; s_i := Z.of_nat j;
     s_err := match j with
              | O => w_create w
              | S j' => wrapped (snd (worker_result cfg w j'))
              end;
     s_tasks := map (fun k => {| t_pc := TDone (wrapped (snd (worker_result cfg w k)));
                                 t_i := Z.of_nat k;
                                 t_idx := Some (Z.of_nat k) |}) (seq 0 j);
     s_group_err := first_error (worker_returns cfg w j);
     s_returns := worker_returns cfg w j;
     s_trace := evs0 ++ flat_map (fun k => EvGo k :: fst (worker_result cfg w k))
                                 (seq 0 j) |}.

(** * Properties *)

(** ** Strings *)

Lemma append_cons (c : ascii) (s t : string) :
  String c s +:+ t = String c (s +:+ t).
Proof. reflexivity. Qed.

Lemma append_length (s t : string) :
  String.length (s +:+ t) = (String.length s + String.length t)%nat.
Proof.
  induction s as [|c s IH]; [reflexivity|].
  rewrite append_cons. simpl. now rewrite IH.
Qed.

Lemma append_inj_r (t s1 s2 : string) : s1 +:+ t = s2 +:+ t -> s1 = s2.
Proof.
  revert s2. induction s1 as [|c s1 IH]; intros [|c2 s2] H.
  - reflexivity.
  - apply (f_equal String.length) in H.
    rewrite !append_length in H. simpl in H. lia.
  - apply (f_equal String.length) in H.
    rewrite !append_length in H. simpl in H. lia.
  - rewrite !append_cons in H. injection H as -> H. f_equal. now apply IH.
Qed.

(** ** strconv.Itoa prints the decimal text of its argument *)

Section Itoa.
Import strconv.

Lemma digit_val_char (d : Z) : 0 <= d < 10 -> digit_val (digit_char d) = d.
Proof.
  intros Hd. unfold digit_val, digit_char.
  rewrite nat_ascii_embedding by lia. lia.
Qed.

Lemma is_digit_char (d : Z) : 0 <= d < 10 -> is_digit (digit_char d) = true.
Proof.
  intros Hd. unfold is_digit, digit_char.
  rewrite nat_ascii_embedding by lia.
  apply andb_true_intro. split; apply Nat.leb_le; lia.
Qed.

(** The digits written for [u] read back as [u], whatever was read before
    them and whatever follows. *)
Lemma decimal_value_format_digits (fuel : nat) :
  forall (u : Z) (acc : string),
    0 <= u < 10 ^ Z.of_nat fuel ->
    exists n : Z, 0 <= n /\
      forall a, decimal_value (format_digits fuel u acc) a
                = decimal_value acc (a * 10 ^ n + u).
Proof.
  induction fuel as [|fuel IH]; intros u acc Hu.
  - exists 0. split; [lia|]. intros a.
    change (10 ^ Z.of_nat 0) with 1 in Hu. cbn [format_digits].
    f_equal. lia.
  - cbn [format_digits]. destruct (Z.ltb_spec u 10) as [Hlt|Hge].
    + exists 1. split; [lia|]. intros a. cbn [decimal_value].
      rewrite Z.mod_small by lia. rewrite digit_val_char by lia.
      f_equal. lia.
    + destruct (IH (u / 10) (String (digit_char (u mod 10)) acc))
        as (n & Hn & Heq).
      { split; [apply Z.div_pos; lia|].
        apply Z.div_lt_upper_bound; [lia|].
        rewrite Nat2Z.inj_succ, Z.pow_succ_r in Hu by lia. lia. }
      exists (n + 1). split; [lia|]. intros a. rewrite Heq.
      cbn [decimal_value].
      rewrite digit_val_char by (apply Z.mod_pos_bound; lia).
      f_equal. rewrite Z.pow_add_r by lia.
      pose proof (Z.div_mod u 10 ltac:(lia)). lia.
Qed.

(** What is written starts with a digit. *)
Lemma format_digits_head (fuel : nat) :
  forall (u : Z) (acc : string),
    0 <= u -> (0 < fuel)%nat ->
    exists c s, format_digits fuel u acc = String c s /\ is_digit c = true.
Proof.
  induction fuel as [|fuel IH]; intros u acc Hu Hf; [lia|].
  cbn [format_digits]. destruct (Z.ltb_spec u 10) as [Hlt|Hge].
  - eexists _, _. split; [reflexivity|].
    apply is_digit_char, Z.mod_pos_bound; lia.
  - destruct fuel as [|fuel].
    + eexists _, _. split; [reflexivity|].
      apply is_digit_char, Z.mod_pos_bound; lia.
    + apply IH; [apply Z.div_pos; lia | lia].
Qed.

Lemma int_magnitude (i : Z) : is_int i -> Z.abs i < 10 ^ Z.of_nat 20.
Proof. unfold is_int. intros Hi. change (10 ^ Z.of_nat 20) with 100000000000000000000.
       change (2 ^ 63) with 9223372036854775808 in Hi. lia. Qed.

Lemma signed_value_Itoa (i : Z) : is_int i -> signed_value (Itoa i) = i.
Proof.
  intros Hi. pose proof (int_magnitude i Hi) as Hm. unfold Itoa.
  destruct (Z.ltb_spec i 0) as [Hneg|Hpos].
  - cbn [signed_value]. change (is_digit "-") with false. cbn iota.
    destruct (decimal_value_format_digits 20 (- i) "" ltac:(lia))
      as (n & _ & Heq).
    rewrite Heq. cbn [decimal_value]. lia.
  - destruct (format_digits_head 20 i "" Hpos ltac:(lia)) as (c & s & Hs & Hc).
    destruct (decimal_value_format_digits 20 i "" ltac:(lia))
      as (n & _ & Heq).
    specialize (Heq 0). rewrite Hs in Heq |- *.
    cbn [signed_value]. rewrite Hc, Heq. cbn [decimal_value]. lia.
Qed.

Lemma Itoa_inj (i j : Z) : is_int i -> is_int j -> Itoa i = Itoa j -> i = j.
Proof.
  intros Hi Hj H. rewrite <- (signed_value_Itoa i Hi), <- (signed_value_Itoa j Hj).
  now rewrite H.
Qed.

End Itoa.

Lemma objectName_inj (cfg : config) (i j : Z) :
  is_int i -> is_int j -> objectName cfg i = objectName cfg j -> i = j.
Proof.
  unfold objectName. intros Hi Hj H.
  apply (inj (String.append _)) in H. apply append_inj_r in H.
  now apply Itoa_inj.
Qed.

(** C8: the object name of shard [i] is the prefix, then the decimal text of
    [i] (a text that reads back as [i]), then the suffix; two different shard
    indices in [0, NumOfWorker) have different object names. *)
Theorem objectName_of_shard (cfg : config) (i j : Z) :
  is_int (NumOfWorker cfg) ->
  0 <= i < NumOfWorker cfg -> 0 <= j < NumOfWorker cfg ->
  (exists d : string,
      objectName cfg i = ObjectNamePrefix cfg +:+ d +:+ ObjectNameSuffix cfg
      /\ strconv.signed_value d = i)
  /\ (i <> j -> objectName cfg i <> objectName cfg j).
Proof.
  unfold is_int. intros HW Hi Hj. split.
  - exists (strconv.Itoa i). split; [reflexivity|].
    apply signed_value_Itoa. unfold is_int. lia.
  - intros Hne Heq. apply Hne.
    apply (objectName_inj cfg); [unfold is_int; lia .. | exact Heq].
Qed.

Lemma objectName_of_shard_witness :
  (exists d : string,
      objectName defaults 9 = "50mb/1_thread." +:+ d +:+ ".0"
      /\ strconv.signed_value d = 9)
  /\ (9 <> 10 -> objectName defaults 9 <> objectName defaults 10).
Proof.
  apply (objectName_of_shard defaults 9 10); unfold is_int; simpl; lia.
Defined.

(** ** The worker: ReadObject *)

Lemma count_app (p : event -> bool) (a b : list event) :
  count p (a ++ b) = (count p a + count p b)%nat.
Proof. unfold count. now rewrite filter_app, length_app. Qed.

Lemma read_loop_counts (name : string) (reads : nat -> read_outcome) :
  forall (todo i : nat),
    let ok := leading_ok reads todo i in
    let res := read_loop name reads todo i in
    count is_duration (fst res) = ok
    /\ count is_close (fst res) = ok
    /\ if (ok =? todo)%nat
       then snd res = None /\ count is_open (fst res) = todo
       else snd res = snd (read_once name (reads (i + ok)%nat))
            /\ is_Some (snd res)
            /\ count is_open (fst res) = S ok.
Proof.
  induction todo as [|todo IH]; intros i; cbn zeta.
  - repeat split.
  - cbn [read_loop leading_ok].
    destruct (reads i) as [cause|cause|elapsed] eqn:Hr.
    + cbn [read_once fst snd]. rewrite Nat.add_0_r, Hr.
      repeat split. eexists; reflexivity.
    + cbn [read_once fst snd]. rewrite Nat.add_0_r, Hr.
      repeat split. eexists; reflexivity.
    + cbn [read_once]. specialize (IH (S i)). cbn zeta in IH.
      destruct (read_loop name reads todo (S i)) as [evs r].
      cbn [fst snd] in *. destruct IH as (Hd & Hc & Hrest).
      rewrite !count_app, Hd, Hc.
      split; [reflexivity|]. split; [reflexivity|].
      change (S (leading_ok reads todo (S i)) =? S todo)%nat
        with (leading_ok reads todo (S i) =? todo)%nat.
      destruct (leading_ok reads todo (S i) =? todo)%nat.
      * destruct Hrest as [-> Ho]. rewrite Ho. split; reflexivity.
      * destruct Hrest as (Hres & Hsome & Ho).
        replace (i + S (leading_ok reads todo (S i)))%nat
          with (S i + leading_ok reads todo (S i))%nat by lia.
        split; [exact Hres|]. split; [exact Hsome|].
        rewrite Ho. reflexivity.
Qed.

Lemma leading_ok_all (reads : nat -> read_outcome) :
  forall todo i a,
    (a < leading_ok reads todo i)%nat -> failed_call (reads (i + a)%nat) = None.
Proof.
  induction todo as [|todo IH]; intros i a; cbn [leading_ok]; [lia|].
  destruct (reads i) eqn:Hr; try lia. intros Ha.
  destruct a as [|a]; [now rewrite Nat.add_0_r, Hr|].
  replace (i + S a)%nat with (S i + a)%nat by lia. apply IH. lia.
Qed.

(** C6: a worker prints one duration line per read that succeeds.  When all
    [NumOfReadCallPerWorker] reads succeed it has made exactly that many
    attempts and returns nil.  Otherwise it stops at the first read that
    fails: that attempt is its last, the error it returns is the one of that
    read, and the duration lines are as many as the reads that succeeded
    before. *)
Theorem ReadObject_attempts (cfg : config) (workerId : Z)
    (reads : nat -> read_outcome) :
  let n := Z.to_nat (NumOfReadCallPerWorker cfg) in
  let ok := leading_ok reads n 0 in
  let res := ReadObject cfg workerId reads in
  count is_duration (fst res) = ok
  /\ (forall a, (a < ok)%nat -> failed_call (reads a) = None)
  /\ if (ok =? n)%nat
     then snd res = None /\ count is_open (fst res) = n
     else snd res = snd (read_once (objectName cfg workerId) (reads ok))
          /\ is_Some (snd res)
          /\ count is_open (fst res) = S ok.
Proof.
  cbn zeta. unfold ReadObject.
  pose proof (read_loop_counts (objectName cfg workerId) reads
                (Z.to_nat (NumOfReadCallPerWorker cfg)) 0%nat) as H.
  cbn zeta in H. destruct H as (Hd & _ & Hrest).
  split; [exact Hd|]. split.
  - intros a Ha. apply (leading_ok_all reads _ 0%nat a Ha).
  - exact Hrest.
Qed.

(** C1: where the drain step fails, the body of the read loop returns
    without closing the reader it opened: one open, no close.  A read that
    succeeds closes its reader once. *)
Theorem read_once_close_calls (name : string) (cause : error) (elapsed : Z) :
  count is_open (fst (read_once name (CopyFails cause))) = 1%nat
  /\ count is_close (fst (read_once name (CopyFails cause))) = 0%nat
  /\ count is_close (fst (read_once name (ReadOk elapsed))) = 1%nat
  /\ count is_close
       (fst (ReadObject defaults 0 (fun _ => CopyFails cause))) = 0%nat.
Proof. repeat split. Qed.

(** ** What a worker's error carries *)

Lemma prefix_append (p s : string) : String.prefix p (p +:+ s) = true.
Proof.
  induction p as [|c p IH]; [now destruct s|].
  rewrite append_cons. cbn [String.prefix].
  destruct (ascii_dec c c); [exact IH | congruence].
Qed.

Lemma read_loop_error (name : string) (reads : nat -> read_outcome) :
  forall todo i e,
    snd (read_loop name reads todo i) = Some e ->
    exists k, snd (read_once name (reads k)) = Some e.
Proof.
  induction todo as [|todo IH]; intros i e; cbn [read_loop]; [discriminate|].
  destruct (read_once name (reads i)) as [evs [err|]] eqn:Ho.
  - cbn [snd]. intros [= <-]. exists i. now rewrite Ho.
  - specialize (IH (S i) e).
    destruct (read_loop name reads todo (S i)) as [evs' r]. exact IH.
Qed.

(** C5, as the code has it: an error returned by a worker is the text of the
    underlying cause behind a prefix that names the call that failed, reader
    open or stream copy, and the coordinator can tell the two apart by that
    prefix. *)
Theorem ReadObject_error_call_type (cfg : config) (workerId : Z)
    (reads : nat -> read_outcome) (e : error) :
  snd (ReadObject cfg workerId reads) = Some e ->
  exists (k : nat) (cause : error),
    (reads k = OpenFails cause
     /\ e = "while creating reader object: " +:+ cause
     /\ call_type_of e = Some ReaderOpen)
    \/ (reads k = CopyFails cause
        /\ e = "while reading and discarding content: " +:+ cause
        /\ call_type_of e = Some StreamCopy).
Proof.
  unfold ReadObject. intros H.
  apply read_loop_error in H as [k Hk]. exists k.
  destruct (reads k) as [cause|cause|elapsed] eqn:Hr;
    cbn [read_once snd fmt.verb_v] in Hk; [| |discriminate].
  - injection Hk as <-. exists cause. left. repeat split.
    unfold call_type_of. now rewrite prefix_append.
  - injection Hk as <-. exists cause. right. repeat split.
    unfold call_type_of. rewrite prefix_append.
    now rewrite append_cons.
Qed.

Lemma ReadObject_error_call_type_witness :
  exists (k : nat) (cause : error),
    ((fun _ : nat => CopyFails "unexpected EOF") k = OpenFails cause
     /\ "while reading and discarding content: unexpected EOF"
        = "while creating reader object: " +:+ cause
     /\ call_type_of "while reading and discarding content: unexpected EOF"
        = Some ReaderOpen)
    \/ ((fun _ : nat => CopyFails "unexpected EOF") k = CopyFails cause
        /\ "while reading and discarding content: unexpected EOF"
           = "while reading and discarding content: " +:+ cause
        /\ call_type_of "while reading and discarding content: unexpected EOF"
           = Some StreamCopy).
Proof.
  apply (ReadObject_error_call_type defaults 3
           (fun _ => CopyFails "unexpected EOF")).
  reflexivity.
Defined.

(** C5, as the claim has it: the shard index cannot be read off the error.
    Workers 0 and 1 that fail in the same way return the same error. *)
Lemma ReadObject_error_without_shard :
  ~ exists shard_of : error -> Z,
      forall (cfg : config) (workerId : Z) (reads : nat -> read_outcome)
             (e : error),
        snd (ReadObject cfg workerId reads) = Some e -> shard_of e = workerId.
Proof.
  intros [shard_of H].
  pose (reads := fun _ : nat => OpenFails "storage: object doesn't exist").
  assert (H0 := H defaults 0 reads _ eq_refl).
  assert (H1 := H defaults 1 reads _ eq_refl).
  rewrite H0 in H1. discriminate.
Qed.

(** ** The process environment around CreateGrpcClient *)

Section Environment.
Variables (cfg : config) (w : world) (env : gmap string string).

Let use_grpc : string := "STORAGE_USE_GRPC".
Let direct_path : string := "GOOGLE_CLOUD_ENABLE_DIRECT_PATH_XDS".

Lemma unset_after_set :
  delete direct_path
    (delete use_grpc (<[direct_path := "true"]> (<[use_grpc := "gRPC"]> env)))
  = delete direct_path (delete use_grpc env).
Proof.
  apply map_eq. intros k.
  destruct (decide (k = direct_path)) as [->|Hd];
    [now rewrite !lookup_delete_eq|].
  rewrite !(lookup_delete_ne _ direct_path k) by congruence.
  destruct (decide (k = use_grpc)) as [->|Hu];
    [now rewrite !lookup_delete_eq|].
  rewrite !(lookup_delete_ne _ use_grpc k) by congruence.
  rewrite !lookup_insert_ne by congruence. reflexivity.
Qed.

Lemma CreateGrpcClient_returns :
  CreateGrpcClient cfg w env
  = Ret (delete direct_path (delete use_grpc env),
         storage.NewClient w
           (<[direct_path := "true"]> (<[use_grpc := "gRPC"]> env))
           (storage.WithGRPCConnectionPool (GrpcConnPoolSize cfg))).
Proof.
  unfold CreateGrpcClient.
  change (os.Setenv "STORAGE_USE_GRPC" "gRPC" env)
    with (<[use_grpc := "gRPC"]> env, @None error).
  cbv beta iota.
  change (os.Setenv "GOOGLE_CLOUD_ENABLE_DIRECT_PATH_XDS" "true"
            (<[use_grpc := "gRPC"]> env))
    with (<[direct_path := "true"]> (<[use_grpc := "gRPC"]> env), @None error).
  cbv beta iota. unfold os.Unsetenv. cbv beta iota.
  rewrite <- unset_after_set. reflexivity.
Qed.

End Environment.

(** C9, as the code has it: CreateGrpcClient always returns, and when it
    does both variables are unset, whether the client was built or not.  The
    environment it leaves is the one it found with the two variables
    removed: the same environment where neither was set before the call. *)
Theorem CreateGrpcClient_environment (cfg : config) (w : world)
    (env : gmap string string) :
  exists (env' : gmap string string) (r : option storage.Client * option error),
    CreateGrpcClient cfg w env = Ret (env', r)
    /\ env' !! "STORAGE_USE_GRPC" = None
    /\ env' !! "GOOGLE_CLOUD_ENABLE_DIRECT_PATH_XDS" = None
    /\ env' = delete "GOOGLE_CLOUD_ENABLE_DIRECT_PATH_XDS"
                (delete "STORAGE_USE_GRPC" env)
    /\ (env !! "STORAGE_USE_GRPC" = None ->
        env !! "GOOGLE_CLOUD_ENABLE_DIRECT_PATH_XDS" = None -> env' = env).
Proof.
  eexists _, _. split; [apply CreateGrpcClient_returns|].
  split; [|split; [|split]].
  - rewrite lookup_delete_ne by discriminate. apply lookup_delete_eq.
  - apply lookup_delete_eq.
  - reflexivity.
  - intros H1 H2. rewrite (delete_id _ "STORAGE_USE_GRPC") by exact H1.
    now rewrite delete_id.
Qed.

(** C9, as the claim has it: a variable that was set before the call is gone
    after it, so the environment is not always left unchanged. *)
Lemma CreateGrpcClient_changes_environment :
  ~ forall (cfg : config) (w : world) (env env' : gmap string string)
           (r : option storage.Client * option error),
      CreateGrpcClient cfg w env = Ret (env', r) -> env' = env.
Proof.
  intros H.
  pose (env := {["STORAGE_USE_GRPC" := "gRPC"]} : gmap string string).
  specialize (H defaults (quiet_world PerLoop (fun _ _ => ReadOk 1)) env _ _
                (CreateGrpcClient_returns _ _ _)).
  apply (f_equal (fun m : gmap string string => m !! "STORAGE_USE_GRPC")) in H.
  rewrite lookup_delete_ne in H by discriminate.
  rewrite lookup_delete_eq in H. subst env.
  rewrite lookup_singleton_eq in H. discriminate.
Qed.

(** ** main up to the launch of the workers *)

Lemma NewClient_shape (w : world) (env : gmap string string)
    (o : storage.client_option) (client : option storage.Client) (e : error) :
  storage.NewClient w env o = (client, Some e) -> client = None.
Proof.
  unfold storage.NewClient. destruct (w_new_client w env); congruence.
Qed.

(** Whichever constructor is used, an error comes with a nil client. *)
Lemma create_client_error (cfg : config) (w : world)
    (env : gmap string string) (client : option storage.Client) (e : error) :
  create_client cfg w = Ret (env, (client, Some e)) -> client = None.
Proof.
  unfold create_client. destruct (String.eqb (w_protocol w) "http").
  - unfold CreateHttpClient, GetTokenSource.
    destruct (w_token w); [congruence|].
    intros [= _ H]. eapply NewClient_shape, H.
  - rewrite CreateGrpcClient_returns. intros [= _ H].
    eapply NewClient_shape, H.
Qed.

Lemma main_setup_client_error (cfg : config) (w : world)
    (env : gmap string string) (client : option storage.Client) (e : error) :
  create_client cfg w = Ret (env, (client, Some e)) ->
  main_setup cfg w
  = ([EvSetRetry true],
     Panic "invalid memory address or nil pointer dereference").
Proof.
  intros H. pose proof (create_client_error _ _ _ _ _ H) as ->.
  unfold main_setup. rewrite H. reflexivity.
Qed.

(** C10: when the construction of the client returns an error, the client is
    nil, main goes on past the error check, calls SetRetry on the nil client
    and panics there on the nil dereference; nothing else happens. *)
Theorem main_SetRetry_on_nil_client (cfg : config) (w : world)
    (sched : list actor) (env : gmap string string)
    (client : option storage.Client) (e : error) :
  create_client cfg w = Ret (env, (client, Some e)) ->
  client = None
  /\ main cfg w sched
     = ([EvSetRetry true],
        Panic "invalid memory address or nil pointer dereference").
Proof.
  intros H. split; [eapply create_client_error, H|].
  unfold main. now rewrite (main_setup_client_error _ _ _ _ _ H).
Qed.

Lemma main_SetRetry_on_nil_client_witness :
  @None storage.Client = None
  /\ main defaults no_grpc (sequential_schedule 48)
     = ([EvSetRetry true],
        Panic "invalid memory address or nil pointer dereference").
Proof.
  apply (main_SetRetry_on_nil_client defaults no_grpc (sequential_schedule 48)
           ∅ None "dialing: context deadline exceeded").
  reflexivity.
Defined.

(** C2: with no credentials the construction of the client fails, and main
    neither reports the error nor stops in an orderly way: nothing reaches
    standard error and the process ends in the panic of SetRetry.  The same
    happens where the gRPC client cannot be built. *)
Theorem main_client_error_unreported (sched : list actor) :
  fst (CreateHttpClient defaults no_credentials false) = None
  /\ snd (CreateHttpClient defaults no_credentials false)
     = Some ("while generating tokenSource, "
             +:+ "google: could not find default credentials")
  /\ main defaults no_credentials sched
     = ([EvSetRetry true],
        Panic "invalid memory address or nil pointer dereference")
  /\ stderr_texts (fst (main defaults no_credentials sched)) = []
  /\ main defaults no_grpc sched
     = ([EvSetRetry true],
        Panic "invalid memory address or nil pointer dereference").
Proof. repeat split. Qed.

(** ** The coordinator: what holds in every reachable state *)

Lemma quiet_app (a b : list event) : quiet a -> quiet b -> quiet (a ++ b).
Proof.
  unfold quiet, stdout_lines, stderr_texts. intros [Ha1 Ha2] [Hb1 Hb2].
  rewrite !omap_app, Ha1, Ha2, Hb1, Hb2. split; reflexivity.
Qed.

Lemma read_once_quiet (name : string) (o : read_outcome) :
  quiet (fst (read_once name o)).
Proof. destruct o; split; reflexivity. Qed.

Lemma read_loop_quiet (name : string) (reads : nat -> read_outcome) :
  forall todo i, quiet (fst (read_loop name reads todo i)).
Proof.
  induction todo as [|todo IH]; intros i; cbn [read_loop]; [split; reflexivity|].
  pose proof (read_once_quiet name (reads i)) as Ho.
  destruct (read_once name (reads i)) as [evs [err|]]; [exact Ho|].
  specialize (IH (S i)). destruct (read_loop name reads todo (S i)) as [evs' r].
  now apply quiet_app.
Qed.

Lemma first_error_snoc (rets : list (option error)) (ret : option error) :
  first_error (rets ++ [ret])
  = match first_error rets with Some first => Some first | None => ret end.
Proof.
  induction rets as [|[e|] rets IH]; cbn [first_error app];
    [now destruct ret | reflexivity | exact IH].
Qed.

Lemma all_done_lookup (ts : list task) (k : nat) (t : task) :
  all_done ts = true -> ts !! k = Some t -> exists ret, t_pc t = TDone ret.
Proof.
  revert k. induction ts as [|t0 ts IH]; intros k Hall Hk; [discriminate|].
  cbn [all_done forallb] in Hall. apply andb_true_iff in Hall as [H0 Hall].
  destruct k as [|k]; cbn in Hk.
  - injection Hk as <-. destruct (t_pc t0); try discriminate. now eexists.
  - now apply (IH k).
Qed.

Lemma step_task_all_done (cfg : config) (w : world) (k : nat) (s : state) :
  all_done (s_tasks s) = true -> step_task cfg w k s = None.
Proof.
  intros Hall. unfold step_task.
  destruct (s_tasks s !! k) as [t|] eqn:Hk; [|reflexivity].
  destruct (all_done_lookup _ _ _ Hall Hk) as [ret ->]. reflexivity.
Qed.

Lemma inv_step_main (cfg : config) (s s' : state) :
  inv s -> step_main cfg s = Some s' -> inv s'.
Proof.
  unfold inv, step_main. intros [Hg Hpc].
  destruct (s_pc s) eqn:Hs.
  - destruct (s_i s <? NumOfWorker cfg); intros [= <-]; cbn.
    + split; [exact Hg|]. apply quiet_app; [exact Hpc | split; reflexivity].
    + split; [exact Hg | exact Hpc].
  - intros [= <-]; cbn. split; [exact Hg | exact Hpc].
  - destruct (all_done (s_tasks s)) eqn:Hall; [|discriminate].
    intros [= <-]; cbn. repeat split; try assumption; apply Hpc.
  - destruct Hpc as (Hq & He & Hall). intros [= <-]; cbn.
    split; [exact Hg|]. split; [exact Hall|].
    exists (s_trace s). split; [exact Hq|].
    unfold report_of. now rewrite <- Hg, <- He.
  - discriminate.
Qed.

Lemma inv_step_task (cfg : config) (w : world) (k : nat) (s s' : state) :
  inv s -> step_task cfg w k s = Some s' -> inv s'.
Proof.
  intros Hinv Hstep.
  assert (Hrun : all_done (s_tasks s) = false).
  { destruct (all_done (s_tasks s)) eqn:Hall; [|reflexivity].
    rewrite step_task_all_done in Hstep by exact Hall. discriminate. }
  destruct Hinv as [Hg Hpc].
  assert (Hq : quiet (s_trace s)
               /\ match s_pc s with MLoop | MIncr | MWait => True | _ => False end).
  { destruct (s_pc s); try (split; [exact Hpc | exact I]);
      destruct Hpc as (? & ? & ?); congruence. }
  clear Hpc. destruct Hq as [Hq Hpc].
  assert (Hkeep : forall tr, quiet tr ->
            match s_pc s with
            | MLoop | MIncr | MWait => quiet tr
            | MReport => quiet tr /\ s_err s = s_group_err s
                         /\ all_done (s_tasks s) = true
            | MReturned => all_done (s_tasks s) = true
                /\ exists evs, quiet evs /\ tr = evs ++ [report_of (s_returns s)]
            end).
  { intros tr Htr. destruct (s_pc s); solve [exact Htr | destruct Hpc]. }
  unfold step_task in Hstep.
  destruct (s_tasks s !! k) as [t|]; [|discriminate].
  destruct (t_pc t).
  - injection Hstep as <-. split; cbn; [exact Hg|].
    destruct (s_pc s); try destruct Hpc; rewrite app_nil_r; exact Hq.
  - destruct (ReadObject cfg (default 0 (t_idx t)) (w_read w k)) as [evs r] eqn:Hr.
    injection Hstep as <-. split; cbn; [exact Hg|].
    assert (quiet evs) as Hevs.
    { change evs with (fst (evs, r)). rewrite <- Hr. apply read_loop_quiet. }
    destruct (s_pc s); try destruct Hpc; now apply quiet_app.
  - injection Hstep as <-. split; cbn; [exact Hg|].
    destruct (s_pc s); try destruct Hpc; rewrite app_nil_r; exact Hq.
  - injection Hstep as <-. split; cbn; [exact Hg|].
    destruct (s_pc s); try destruct Hpc; rewrite app_nil_r; exact Hq.
  - injection Hstep as <-. split; cbn.
    + rewrite first_error_snoc, <- Hg. reflexivity.
    + destruct (s_pc s); try destruct Hpc; exact Hq.
  - discriminate.
Qed.

Lemma inv_run (cfg : config) (w : world) (sched : list actor) :
  forall s, inv s -> inv (run cfg w sched s).
Proof.
  induction sched as [|a sched IH]; intros s Hs; [exact Hs|].
  cbn [run]. apply IH.
  destruct (step cfg w a s) as [s'|] eqn:Hstep; [|exact Hs].
  destruct a as [|k]; cbn [step] in Hstep.
  - eapply inv_step_main; eassumption.
  - eapply inv_step_task; eassumption.
Qed.

Lemma inv_setup (cfg : config) (w : world) (evs : list event) (s0 : state) :
  main_setup cfg w = (evs, Ret s0) -> inv s0.
Proof.
  unfold main_setup.
  destruct (create_client cfg w) as [[env [client err]]|msg|msg];
    [|discriminate..].
  destruct (storage.SetRetry client _ _); [|discriminate..].
  intros [= _ <-]. repeat split.
Qed.

Lemma main_running (cfg : config) (w : world) (sched : list actor) (s : state) :
  snd (main cfg w sched) = Ret s ->
  exists evs s0, main_setup cfg w = (evs, Ret s0) /\ s = run cfg w sched s0.
Proof.
  unfold main. destruct (main_setup cfg w) as [evs [s0|msg|msg]]; cbn [snd];
    [|discriminate..].
  intros [= <-]. now exists evs, s0.
Qed.

Lemma main_inv (cfg : config) (w : world) (sched : list actor) (s : state) :
  snd (main cfg w sched) = Ret s -> inv s.
Proof.
  intros H. apply main_running in H as (evs & s0 & Hsetup & ->).
  eapply inv_run, inv_setup, Hsetup.
Qed.




(** ** The error of the bucket creation *)

Lemma same_but_err_refl (s : state) : same_but_err s s.
Proof. unfold same_but_err. intuition. Qed.

Lemma step_with_create (cfg : config) (w : world) (r : option error)
    (a : actor) (s : state) :
  step cfg (with_create w r) a s = step cfg w a s.
Proof. reflexivity. Qed.

Lemma same_but_err_step (cfg : config) (w : world) (a : actor) (s1 s2 : state) :
  same_but_err s1 s2 ->
  same_but_err (default s1 (step cfg w a s1)) (default s2 (step cfg w a s2)).
Proof.
  destruct s1 as [pc i err1 ts g rets tr], s2 as [pc2 i2 err2 ts2 g2 rets2 tr2].
  unfold same_but_err. cbn [s_pc s_i s_err s_tasks s_group_err s_returns s_trace].
  intros (<- & <- & <- & <- & <- & <- & [<-|[Hts Hpc]]).
  { apply same_but_err_refl. }
  destruct a as [|k]; cbn [step].
  - unfold step_main. cbn [s_pc s_i s_err s_tasks s_group_err s_returns s_trace].
    destruct pc; try destruct Hpc.
    + destruct (i <? NumOfWorker cfg); cbn; repeat (split; [reflexivity|]);
        right; (split; [|exact I]); [|exact Hts].
      apply Forall_app. split; [exact Hts|]. repeat constructor.
    + cbn. repeat (split; [reflexivity|]). right. now split.
    + destruct (all_done ts); cbn; repeat (split; [reflexivity|]);
        [now left | right; now split].
  - unfold step_task. cbn [s_pc s_i s_err s_tasks s_group_err s_returns s_trace].
    destruct (ts !! k) as [t|] eqn:Hk; cbn [default].
    2:{ repeat (split; [reflexivity|]). right. now split. }
    pose proof (Forall_lookup_1 _ _ _ _ Hts Hk) as [Ht|Ht]; rewrite Ht.
    + cbn. repeat (split; [reflexivity|]). right. split; [|exact Hpc].
      apply Forall_insert; [exact Hts|]. now right.
    + destruct (ReadObject cfg (default 0 (t_idx t)) (w_read w k)) as [evs r].
      cbn. repeat (split; [reflexivity|]). now left.
Qed.

Lemma same_but_err_run (cfg : config) (w : world) (sched : list actor) :
  forall s1 s2, same_but_err s1 s2 ->
                same_but_err (run cfg w sched s1) (run cfg w sched s2).
Proof.
  induction sched as [|a sched IH]; intros s1 s2 H; [exact H|].
  cbn [run]. now apply IH, same_but_err_step.
Qed.

Lemma run_with_create (cfg : config) (w : world) (r : option error)
    (sched : list actor) :
  forall s, run cfg (with_create w r) sched s = run cfg w sched s.
Proof.
  induction sched as [|a sched IH]; intros s; [reflexivity|].
  cbn [run]. now rewrite step_with_create, IH.
Qed.

(** C4: whatever error the bucket creation returns, main goes on exactly as
    if it had returned none: under every schedule it does and prints the
    same, starts the same goroutines and ends in the same way.  With an error
    403 all 48 workers are started and, when they are done, the success line
    is printed. *)
Theorem main_ignores_create_error (cfg : config) (w : world) (e : error)
    (sched : list actor) :
  fst (main cfg (with_create w (Some e)) sched)
  = fst (main cfg (with_create w None) sched)
  /\ match snd (main cfg (with_create w (Some e)) sched),
           snd (main cfg (with_create w None) sched) with
     | Ret s, Ret s' => same_but_err s s'
     | Fatal msg, Fatal msg' | Panic msg, Panic msg' => msg = msg'
     | _, _ => False
     end
  /\ count is_go (fst (main defaults forbidden (sequential_schedule 48)))
     = 48%nat
  /\ stdout_lines (fst (main defaults forbidden (sequential_schedule 48)))
     = [success_line]
  /\ stderr_texts (fst (main defaults forbidden (sequential_schedule 48)))
     = [].
Proof.
  split; [|split; [|vm_compute; repeat split]].
  - unfold main, main_setup.
    change (create_client cfg (with_create w (Some e)))
      with (create_client cfg w).
    change (create_client cfg (with_create w None)) with (create_client cfg w).
    destruct (create_client cfg w) as [[env [client err]]|msg|msg];
      [|reflexivity..].
    destruct (storage.SetRetry client _ _); [|reflexivity..].
    cbn [fst snd with_create w_create]. rewrite !run_with_create.
    match goal with
    | |- s_trace (run _ _ _ ?s1) = s_trace (run _ _ _ ?s2) =>
        assert (same_but_err s1 s2) as H
          by (unfold same_but_err; cbn; repeat (split; [reflexivity|]);
              right; split; [constructor | exact I])
    end.
    apply (same_but_err_run cfg w sched) in H. apply H.
  - unfold main, main_setup.
    change (create_client cfg (with_create w (Some e)))
      with (create_client cfg w).
    change (create_client cfg (with_create w None)) with (create_client cfg w).
    destruct (create_client cfg w) as [[env [client err]]|msg|msg];
      [|reflexivity..].
    destruct (storage.SetRetry client _ _); [|reflexivity..].
    cbn [fst snd with_create w_create]. rewrite !run_with_create.
    apply same_but_err_run.
    unfold same_but_err; cbn; repeat (split; [reflexivity|]).
    right; split; [constructor | exact I].
Qed.

(** ** The shard index each goroutine reads *)

Lemma launch_inv_step (cfg : config) (w : world) (a : actor) (s s' : state) :
  launch_inv cfg w s -> step cfg w a s = Some s' -> launch_inv cfg w s'.
Proof.
  unfold launch_inv. intros [Hpc Hts]. destruct a as [|k]; cbn [step].
  - unfold step_main. destruct (s_pc s).
    + destruct (Z.ltb_spec (s_i s) (NumOfWorker cfg)); intros [= <-]; cbn.
      * split; [rewrite length_app; cbn; lia|].
        intros k t Hk. apply lookup_app_Some in Hk as [Hk|[Hlen Hk]];
          [now apply Hts|].
        apply list_lookup_singleton_Some in Hk as [Hk0 <-]. cbn.
        split; [lia | now left].
      * split; [lia | exact Hts].
    + intros [= <-]; cbn. split; [lia | exact Hts].
    + destruct (all_done (s_tasks s)); [|discriminate].
      intros [= <-]; cbn. now split.
    + intros [= <-]; cbn. now split.
    + discriminate.
  - unfold step_task. destruct (s_tasks s !! k) as [t|] eqn:Hk; [|discriminate].
    destruct (Hts k t Hk) as [Hi Hidx].
    assert (Hlen : forall t', length (<[k := t']> (s_tasks s))
                              = length (s_tasks s))
      by (intros; apply length_insert).
    assert (Hput : forall t',
               t_i t' = t_i t ->
               (w_loopvar w = PerIteration ->
                t_idx t' = None \/ t_idx t' = Some (Z.of_nat k)) ->
               forall j tj, <[k := t']> (s_tasks s) !! j = Some tj ->
                 t_i tj = Z.of_nat j
                 /\ (w_loopvar w = PerIteration ->
                     t_idx tj = None \/ t_idx tj = Some (Z.of_nat j))).
    { intros t' Hi' Hidx' j tj Hj.
      destruct (decide (j = k)) as [->|Hne].
      - rewrite list_lookup_insert_eq in Hj by (eapply lookup_lt_Some, Hk).
        injection Hj as <-. split; [congruence | exact Hidx'].
      - rewrite list_lookup_insert_ne in Hj by congruence. now apply Hts. }
    destruct (t_pc t).
    + intros [= <-]; cbn. rewrite Hlen. split; [exact Hpc|].
      apply Hput; [reflexivity|]. cbn. intros ->. right. now rewrite Hi.
    + destruct (ReadObject cfg (default 0 (t_idx t)) (w_read w k)) as [evs r].
      intros [= <-]; cbn. rewrite Hlen. split; [exact Hpc|].
      apply Hput; [reflexivity | exact Hidx].
    + intros [= <-]; cbn. rewrite Hlen. split; [exact Hpc|].
      apply Hput; [reflexivity | exact Hidx].
    + intros [= <-]; cbn. rewrite Hlen. split; [exact Hpc|].
      apply Hput; [reflexivity | exact Hidx].
    + intros [= <-]; cbn. rewrite Hlen. split; [exact Hpc|].
      apply Hput; [reflexivity | exact Hidx].
    + discriminate.
Qed.

Lemma launch_inv_main (cfg : config) (w : world) (sched : list actor)
    (s : state) :
  snd (main cfg w sched) = Ret s -> launch_inv cfg w s.
Proof.
  intros H. apply main_running in H as (evs & s0 & Hsetup & ->).
  assert (launch_inv cfg w s0) as H0.
  { unfold main_setup in Hsetup.
    destruct (create_client cfg w) as [[env [client err]]|msg|msg];
      [|discriminate..].
    destruct (storage.SetRetry client _ _); [|discriminate..].
    injection Hsetup as _ <-. split; cbn; [lia | intros k t Hk; discriminate]. }
  clear Hsetup. revert s0 H0.
  induction sched as [|a sched IH]; intros s0 H0; [exact H0|].
  cbn [run]. apply IH.
  destruct (step cfg w a s0) as [s'|] eqn:Hstep; [|exact H0].
  eapply launch_inv_step; eassumption.
Qed.

(** Where every iteration has its own [i], the workers that have read their
    index have read their own, and main waits for exactly [NumOfWorker] of
    them. *)
Lemma per_iteration_indices (cfg : config) (w : world) (sched : list actor)
    (s : state) (k : nat) (t : task) (idx : Z) :
  w_loopvar w = PerIteration ->
  snd (main cfg w sched) = Ret s ->
  s_tasks s !! k = Some t -> t_idx t = Some idx ->
  idx = Z.of_nat k.
Proof.
  intros Hlv Hmain Hk Hidx.
  destruct (launch_inv_main _ _ _ _ Hmain) as [_ Hts].
  destruct (Hts k t Hk) as [_ [H|H]]; [exact Hlv|congruence..].
Qed.

Lemma workers_launched (cfg : config) (w : world) (sched : list actor)
    (s : state) :
  snd (main cfg w sched) = Ret s -> s_pc s = MWait ->
  Z.of_nat (length (s_tasks s)) = Z.max 0 (NumOfWorker cfg).
Proof.
  intros Hmain Hpc. destruct (launch_inv_main _ _ _ _ Hmain) as [H _].
  now rewrite Hpc in H.
Qed.

(** C3: [idx := i] runs inside the goroutine.  With one [i] for the whole
    loop, when main has gone through the loop before the goroutines start to
    run, each of the 48 goroutines reads 48 into [idx], and each opens the
    object of index 48, an index that is not a shard. *)
Theorem goroutines_read_final_index :
  match snd (main defaults nothing_to_read (sequential_schedule 48)) with
  | Ret s => map t_idx (s_tasks s) = replicate 48 (Some 48)
  | _ => False
  end
  /\ filter (fun e => is_open e = true)
       (fst (main defaults nothing_to_read (sequential_schedule 48)))
     = replicate 48 (EvNewReader "50mb/1_thread.48.0").
Proof. vm_compute. split; reflexivity. Qed.


(** ** The scenarios of the specification *)

(** Two workers, three reads each, all succeed: six duration lines and the
    success line. *)
Example scenario_all_succeed :
  let out := fst (main two_by_three
                    (quiet_world PerIteration (fun _ _ => ReadOk 1000000))
                    (eager_schedule 2)) in
  count is_duration out = 6%nat
  /\ stdout_lines out = [success_line] /\ stderr_texts out = [].
Proof. vm_compute. repeat split. Qed.

(** Worker 0 fails in its second read: one and three duration lines, the
    error of worker 0 on standard error, no success line. *)
Example scenario_second_read_fails :
  let out := fst (main two_by_three
                    (quiet_world PerLoop second_read_of_0_fails)
                    (eager_schedule 2)) in
  count is_duration out = 4%nat
  /\ stdout_lines out = []
  /\ stderr_texts out
     = ["Error while running benchmark: while reading object: while reading and discarding content: unexpected EOF"].
Proof. vm_compute. repeat split. Qed.

(** The goroutines assign the variable [err] of main and return what they
    find in it.  Where goroutine 1 comes back from a ReadObject without error
    between the assignment of goroutine 0 and its test, the error of worker 0
    is overwritten: both goroutines return nil and the success line is
    printed, although ReadObject failed in goroutine 0. *)
Remark shared_err_overwritten :
  let w := quiet_world PerIteration second_read_of_0_fails in
  let s := state_of (main two_by_three w overtaking_schedule) in
  is_Some (snd (ReadObject two_by_three 0 (w_read w 0%nat)))
  /\ map t_idx (s_tasks s) = [Some 0; Some 1]
  /\ s_returns s = [None; None]
  /\ s_pc s = MReturned
  /\ stdout_lines (s_trace s) = [success_line].
Proof. vm_compute. repeat split. now eexists. Qed.

Example objectName_7 : objectName defaults 7 = "50mb/1_thread.7.0".
Proof. reflexivity. Qed.

Example Itoa_neg : strconv.Itoa (-120) = "-120".
Proof. reflexivity. Qed.

Example Itoa_max : strconv.Itoa (2 ^ 63 - 1) = "9223372036854775807".
Proof. reflexivity. Qed.

Example Itoa_min : strconv.Itoa (- 2 ^ 63) = "-9223372036854775808".
Proof. reflexivity. Qed.

(** * More about the worker *)

(** X1: two 64-bit worker ids have the same object name only when they are
    the same id, whether or not they are shard indices. *)
Theorem objectName_eq_iff (cfg : config) (i j : Z) :
  is_int i -> is_int j -> (objectName cfg i = objectName cfg j <-> i = j).
Proof.
  intros Hi Hj. split; [|now intros ->].
  unfold objectName. intros H.
  apply (inj (String.append _)) in H. apply append_inj_r in H.
  rewrite <- (signed_value_Itoa i Hi), <- (signed_value_Itoa j Hj).
  now rewrite H.
Qed.

Lemma objectName_eq_iff_witness :
  objectName defaults 48 = objectName defaults (-48) <-> 48 = -48.
Proof. apply (objectName_eq_iff defaults 48 (-48)); unfold is_int; lia. Defined.

(** X2: with a number of reads that is zero or negative the worker does
    nothing at all and returns nil. *)
Theorem ReadObject_no_reads (cfg : config) (workerId : Z)
    (reads : nat -> read_outcome) :
  NumOfReadCallPerWorker cfg <= 0 ->
  ReadObject cfg workerId reads = ([], None).
Proof.
  intros Hn. unfold ReadObject.
  now replace (Z.to_nat (NumOfReadCallPerWorker cfg)) with 0%nat by lia.
Qed.

Lemma ReadObject_no_reads_witness :
  ReadObject (with_reads defaults (-3)) 5 (fun _ => OpenFails "unreachable")
  = ([], None).
Proof. apply ReadObject_no_reads. simpl. lia. Defined.

Lemma call_type_of_open (cause : error) :
  call_type_of ("while creating reader object: " +:+ cause) = Some ReaderOpen.
Proof. unfold call_type_of. now rewrite prefix_append. Qed.

Lemma call_type_of_copy (cause : error) :
  call_type_of ("while reading and discarding content: " +:+ cause)
  = Some StreamCopy.
Proof.
  unfold call_type_of. rewrite prefix_append. now rewrite append_cons.
Qed.

Lemma read_loop_unclosed (name : string) (reads : nat -> read_outcome) :
  forall todo i,
    let res := read_loop name reads todo i in
    count is_copy (fst res)
    = (count is_close (fst res) + copy_failures (snd res))%nat.
Proof.
  induction todo as [|todo IH]; intros i; cbn zeta; [reflexivity|].
  cbn [read_loop]. destruct (reads i) as [cause|cause|elapsed];
    cbn [read_once fst snd fmt.verb_v].
  - unfold copy_failures. now rewrite call_type_of_open.
  - unfold copy_failures. now rewrite call_type_of_copy.
  - specialize (IH (S i)). cbn zeta in IH.
    destruct (read_loop name reads todo (S i)) as [evs r]. cbn [fst snd] in *.
    rewrite !count_app, IH. reflexivity.
Qed.

(** X3: over a whole run of the worker, every reader that was opened and
    copied from is closed, except the one whose copy failed: the copies are
    the closes plus one when the worker returns a stream-copy error, and
    exactly the closes otherwise; and there are as many closes as duration
    lines. *)
Theorem ReadObject_unclosed_readers (cfg : config) (workerId : Z)
    (reads : nat -> read_outcome) :
  let res := ReadObject cfg workerId reads in
  count is_copy (fst res)
  = (count is_close (fst res) + copy_failures (snd res))%nat
  /\ count is_close (fst res) = count is_duration (fst res).
Proof.
  cbn zeta. unfold ReadObject. split; [apply read_loop_unclosed|].
  pose proof (read_loop_counts (objectName cfg workerId) reads
                (Z.to_nat (NumOfReadCallPerWorker cfg)) 0%nat) as H.
  cbn zeta in H. destruct H as (-> & -> & _). reflexivity.
Qed.

Lemma read_loop_durations (name : string) (reads : nat -> read_outcome) :
  forall todo i,
    durations (fst (read_loop name reads todo i))
    = omap elapsed_of (map reads (seq i (leading_ok reads todo i))).
Proof.
  induction todo as [|todo IH]; intros i; [reflexivity|].
  cbn [read_loop leading_ok]. destruct (reads i) as [cause|cause|elapsed] eqn:Hr;
    cbn [read_once fst]; [reflexivity..|].
  specialize (IH (S i)).
  destruct (read_loop name reads todo (S i)) as [evs r]. cbn [fst] in *.
  unfold durations in *. rewrite omap_app, IH. cbn. now rewrite Hr.
Qed.

(** X4: the durations the worker prints are those of its successful reads,
    one each and in the order of the reads; nothing is printed for the read
    that fails. *)
Theorem ReadObject_durations (cfg : config) (workerId : Z)
    (reads : nat -> read_outcome) :
  durations (fst (ReadObject cfg workerId reads))
  = omap elapsed_of
      (map reads
         (seq 0 (leading_ok reads (Z.to_nat (NumOfReadCallPerWorker cfg)) 0))).
Proof. apply read_loop_durations. Qed.

Lemma count_single (p : event -> bool) (e : event) :
  count p [e] = if p e then 1%nat else 0%nat.
Proof.
  unfold count. rewrite filter_cons, filter_nil.
  destruct (p e); reflexivity.
Qed.

Lemma read_loop_objects (name : string) (reads : nat -> read_outcome) :
  forall todo i,
    Forall (fun o => o = name) (event_objects (fst (read_loop name reads todo i))).
Proof.
  induction todo as [|todo IH]; intros i; [constructor|].
  cbn [read_loop]. destruct (reads i) as [cause|cause|elapsed];
    cbn [read_once fst]; [repeat constructor..|].
  specialize (IH (S i)).
  destruct (read_loop name reads todo (S i)) as [evs r]. cbn [fst] in *.
  unfold event_objects in *. rewrite omap_app. apply Forall_app.
  split; [repeat constructor | exact IH].
Qed.

(** X5: a worker opens, copies and closes readers of one object only, the
    one named after the worker id it was given. *)
Theorem ReadObject_one_object (cfg : config) (workerId : Z)
    (reads : nat -> read_outcome) :
  Forall (fun o => o = objectName cfg workerId)
         (event_objects (fst (ReadObject cfg workerId reads)))
  /\ length (event_objects (fst (ReadObject cfg workerId reads)))
     = (count is_open (fst (ReadObject cfg workerId reads))
        + count is_copy (fst (ReadObject cfg workerId reads))
        + count is_close (fst (ReadObject cfg workerId reads)))%nat.
Proof.
  split; [apply read_loop_objects|].
  induction (fst (ReadObject cfg workerId reads)) as [|e evs IH]; [reflexivity|].
  change (e :: evs) with ([e] ++ evs).
  unfold event_objects in *.
  rewrite omap_app, length_app, !count_app, IH, !count_single.
  destruct e; cbn; lia.
Qed.

(** * More about the construction of the client *)

(** X6: CreateGrpcClient builds the client in an environment where the two
    variables have the values it sets and every other variable is as before,
    and it returns with every other variable as it found it. *)
Theorem CreateGrpcClient_frame (cfg : config) (w : world)
    (env : gmap string string) :
  exists env_during env_after : gmap string string,
    CreateGrpcClient cfg w env
    = Ret (env_after,
           storage.NewClient w env_during
             (storage.WithGRPCConnectionPool (GrpcConnPoolSize cfg)))
    /\ env_during !! "STORAGE_USE_GRPC" = Some "gRPC"
    /\ env_during !! "GOOGLE_CLOUD_ENABLE_DIRECT_PATH_XDS" = Some "true"
    /\ forall k : string,
         k <> "STORAGE_USE_GRPC" ->
         k <> "GOOGLE_CLOUD_ENABLE_DIRECT_PATH_XDS" ->
         env_during !! k = env !! k /\ env_after !! k = env !! k.
Proof.
  eexists _, _. split; [apply CreateGrpcClient_returns|].
  split; [|split].
  - rewrite lookup_insert_ne by discriminate. apply lookup_insert_eq.
  - apply lookup_insert_eq.
  - intros k H1 H2. split.
    + now rewrite !lookup_insert_ne by congruence.
    + now rewrite !lookup_delete_ne by congruence.
Qed.

(** X7: the client main gets depends on the flag only through the test
    against the text http.  With http it is an HTTP/1 client with the two
    connection caps, the user agent prince and no timeout, and the
    environment is untouched; with any other text it is a gRPC client with
    the configured pool size.  It has no retry configuration yet, it comes
    with a nil error, and it is never an HTTP/2 client. *)
Theorem create_client_transport (cfg : config) (w : world)
    (env : gmap string string) (c : storage.Client) (err : option error) :
  create_client cfg w = Ret (env, (Some c, err)) ->
  err = None
  /\ storage.c_retry c = None
  /\ (if String.eqb (w_protocol w) "http"
      then storage.c_option c
           = storage.WithHTTPClient
               (storage.Http1 (MaxConnsPerHost cfg) (MaxIdelConnsPerHost cfg))
               "prince" 0
           /\ env = w_env w
      else storage.c_option c
           = storage.WithGRPCConnectionPool (GrpcConnPoolSize cfg))
  /\ forall caps agent timeout,
       storage.c_option c
       <> storage.WithHTTPClient (storage.Http2 caps) agent timeout.
Proof.
  unfold create_client. destruct (String.eqb (w_protocol w) "http").
  - unfold CreateHttpClient, GetTokenSource, storage.NewClient.
    destruct (w_token w); [discriminate|].
    destruct (w_new_client w (w_env w)); [discriminate|].
    intros [= <- <- <-]. cbn. repeat split. discriminate.
  - rewrite CreateGrpcClient_returns. unfold storage.NewClient.
    destruct (w_new_client w _); [discriminate|].
    intros [= <- <- <-]. cbn. repeat split. discriminate.
Qed.

Lemma create_client_transport_witness :
  @None error = None
  /\ @None (storage.backoff * storage.retry_policy) = None
  /\ storage.WithGRPCConnectionPool 1 = storage.WithGRPCConnectionPool 1
  /\ forall caps agent timeout,
       storage.WithGRPCConnectionPool 1
       <> storage.WithHTTPClient (storage.Http2 caps) agent timeout.
Proof.
  apply (create_client_transport defaults grpc_world
           (delete "GOOGLE_CLOUD_ENABLE_DIRECT_PATH_XDS"
              (delete "STORAGE_USE_GRPC" {["HOME" := "/root"]}))
           {| storage.c_option := storage.WithGRPCConnectionPool 1;
              storage.c_retry := None |} None).
  apply CreateGrpcClient_returns.
Defined.

(** X8: main never leaves through a fatal log call while it sets up.  Where
    the construction of the client returns no error, main sets the retry
    policy on a client that is not nil, creates the bucket of the configured
    name in the configured project, and stands at the start of the launch
    loop with no goroutine started and with the error of the bucket creation
    in [err]; where it returns an error, main panics in SetRetry before the
    bucket is created. *)
Theorem main_setup_outcome (cfg : config) (w : world) :
  match create_client cfg w with
  | Ret (_, (_, None)) =>
      exists s0,
        main_setup cfg w
        = ([EvSetRetry false;
            EvBucketCreate (BucketName cfg) (ProjectName cfg)], Ret s0)
        /\ s_pc s0 = MLoop /\ s_i s0 = 0 /\ s_tasks s0 = []
        /\ s_err s0 = w_create w /\ s_returns s0 = []
  | Ret (_, (_, Some _)) =>
      main_setup cfg w
      = ([EvSetRetry true],
         Panic "invalid memory address or nil pointer dereference")
  | Fatal _ | Panic _ => False
  end.
Proof.
  destruct (create_client cfg w) as [[env [client [e|]]]|msg|msg] eqn:Hc.
  - eapply main_setup_client_error, Hc.
  - unfold main_setup. rewrite Hc.
    assert (exists c, client = Some c) as [c ->].
    { revert Hc. unfold create_client.
      destruct (String.eqb (w_protocol w) "http").
      - unfold CreateHttpClient, GetTokenSource, storage.NewClient.
        destruct (w_token w); [discriminate|].
        destruct (w_new_client w (w_env w)); [discriminate|].
        intros [= _ <-]. now eexists.
      - rewrite CreateGrpcClient_returns. unfold storage.NewClient.
        destruct (w_new_client w _); [discriminate|].
        intros [= _ <-]. now eexists. }
    cbn. eexists. repeat split.
  - revert Hc. unfold create_client.
    destruct (String.eqb (w_protocol w) "http"); [discriminate|].
    now rewrite CreateGrpcClient_returns.
  - revert Hc. unfold create_client.
    destruct (String.eqb (w_protocol w) "http"); [discriminate|].
    now rewrite CreateGrpcClient_returns.
Qed.

(** * More about the coordinator *)

(** X9: main never has more goroutines than [NumOfWorker], and once it has
    left the launch loop it has started exactly that many, none when the
    number is negative. *)
Theorem goroutines_started (cfg : config) (w : world) (sched : list actor)
    (s : state) :
  snd (main cfg w sched) = Ret s ->
  Z.of_nat (length (s_tasks s)) <= Z.max 0 (NumOfWorker cfg)
  /\ (s_pc s <> MLoop -> s_pc s <> MIncr ->
      Z.of_nat (length (s_tasks s)) = Z.max 0 (NumOfWorker cfg)).
Proof.
  intros Hmain. destruct (launch_inv_main _ _ _ _ Hmain) as [H _].
  destruct (s_pc s); split; try lia; try congruence; intros; lia.
Qed.

Lemma goroutines_started_witness :
  let s := state_of (main defaults nothing_to_read (workers_schedule 48)) in
  Z.of_nat (length (s_tasks s)) <= Z.max 0 48
  /\ (s_pc s <> MLoop -> s_pc s <> MIncr ->
      Z.of_nat (length (s_tasks s)) = Z.max 0 48).
Proof.
  exact (goroutines_started defaults nothing_to_read (workers_schedule 48)
           _ eq_refl).
Defined.

(** X10: whatever the schedule, as soon as a status line or an error text
    has been written, main has returned, all the goroutines it started have
    returned, and they are [NumOfWorker] many. *)
Theorem report_only_after_all_workers (cfg : config) (w : world)
    (sched : list actor) (s : state) :
  snd (main cfg w sched) = Ret s ->
  stdout_lines (s_trace s) <> [] \/ stderr_texts (s_trace s) <> [] ->
  s_pc s = MReturned
  /\ all_done (s_tasks s) = true
  /\ Z.of_nat (length (s_tasks s)) = Z.max 0 (NumOfWorker cfg).
Proof.
  intros Hmain Hout. pose proof (main_inv _ _ _ _ Hmain) as [_ Hpc].
  destruct (launch_inv_main _ _ _ _ Hmain) as [Hlen _].
  assert (Hloud : ~ quiet (s_trace s))
    by (intros [H1 H2]; destruct Hout; congruence).
  destruct (s_pc s); try (exfalso; apply Hloud; tauto).
  destruct Hpc as [Hall _]. now repeat split.
Qed.

Lemma report_only_after_all_workers_witness :
  let s := state_of (main defaults nothing_to_read (sequential_schedule 48)) in
  s_pc s = MReturned
  /\ all_done (s_tasks s) = true
  /\ Z.of_nat (length (s_tasks s)) = Z.max 0 48.
Proof.
  apply (report_only_after_all_workers defaults nothing_to_read
           (sequential_schedule 48) _ eq_refl).
  right. vm_compute. discriminate.
Defined.

Lemma group_err_step (cfg : config) (w : world) (a : actor) (s s' : state) :
  step cfg w a s = Some s' ->
  (forall e, s_group_err s = Some e -> s_group_err s' = Some e)
  /\ exists more, s_returns s' = s_returns s ++ more.
Proof.
  destruct a as [|k]; cbn [step].
  - unfold step_main.
    destruct (s_pc s); try destruct (s_i s <? NumOfWorker cfg);
      try destruct (all_done (s_tasks s)); try discriminate;
      intros [= <-]; cbn; (split; [tauto | exists []; now rewrite app_nil_r]).
  - unfold step_task. destruct (s_tasks s !! k) as [t|]; [|discriminate].
    destruct (t_pc t);
      try destruct (ReadObject cfg (default 0 (t_idx t)) (w_read w k));
      try discriminate; intros [= <-]; cbn;
      try (split; [tauto | exists []; now rewrite app_nil_r]).
    split; [intros e ->; reflexivity | now eexists].
Qed.

(** X11: the error the group holds is set once: from any state on, under
    any schedule, an error the group holds stays the one it holds, and what
    the goroutines have returned so far is only added to. *)
Theorem group_error_set_once (cfg : config) (w : world) (sched : list actor)
    (s : state) (e : error) :
  s_group_err s = Some e ->
  s_group_err (run cfg w sched s) = Some e
  /\ exists more, s_returns (run cfg w sched s) = s_returns s ++ more.
Proof.
  revert s. induction sched as [|a sched IH]; intros s Hg; cbn [run].
  - split; [exact Hg | exists []; now rewrite app_nil_r].
  - destruct (step cfg w a s) as [s'|] eqn:Hstep; [|now apply IH].
    change (default s (Some s')) with s'.
    destruct (group_err_step _ _ _ _ _ Hstep) as [Hkeep [more Hmore]].
    destruct (IH s' (Hkeep e Hg)) as [Hg' [more' Hmore']].
    split; [exact Hg'|]. exists (more ++ more').
    now rewrite Hmore', Hmore, app_assoc.
Qed.

Lemma group_error_set_once_witness :
  let w := quiet_world PerLoop (fun _ _ => OpenFails "second") in
  s_group_err (run two_by_three w (replicate 4 (Task 1)) one_returned)
  = Some "first"
  /\ exists more,
       s_returns (run two_by_three w (replicate 4 (Task 1)) one_returned)
       = s_returns one_returned ++ more.
Proof.
  exact (group_error_set_once two_by_three
           (quiet_world PerLoop (fun _ _ => OpenFails "second"))
           (replicate 4 (Task 1)) one_returned "first" eq_refl).
Defined.

(** * A goroutine that runs without interruption *)

Lemma step_task_at (cfg : config) (w : world) (k : nat) (t : task)
    (pc : main_pc) (i : Z) (err : option error) (ts : list task)
    (g : option error) (rets : list (option error)) (tr : list event) :
  (k < length ts)%nat ->
  step_task cfg w k
    {| s_pc := pc; s_i := i; s_err := err; s_tasks := <[k := t]> ts;
       s_group_err := g; s_returns := rets; s_trace := tr |}
  = match t_pc t with
    | TIdx =>
        Some {| s_pc := pc; s_i := i; s_err := err;
                s_tasks := <[k := {| t_pc := TCall; t_i := t_i t;
                   t_idx := Some (match w_loopvar w with
                                  | PerLoop => i | PerIteration => t_i t
                                  end) |}]> ts;
                s_group_err := g; s_returns := rets; s_trace := tr |}
    | TCall =>
        let res := ReadObject cfg (default 0 (t_idx t)) (w_read w k) in
        Some {| s_pc := pc; s_i := i; s_err := snd res;
                s_tasks := <[k := {| t_pc := TCheck; t_i := t_i t;
                                     t_idx := t_idx t |}]> ts;
                s_group_err := g; s_returns := rets;
                s_trace := tr ++ fst res |}
    | TCheck =>
        Some {| s_pc := pc; s_i := i; s_err := err;
                s_tasks := <[k := {| t_pc := match err with
                                             | Some _ => TWrap
                                             | None => TReturn
                                             end;
                                     t_i := t_i t; t_idx := t_idx t |}]> ts;
                s_group_err := g; s_returns := rets; s_trace := tr |}
    | TWrap =>
        Some {| s_pc := pc; s_i := i;
                s_err := Some ("while reading object: " +:+ fmt.verb_w err);
                s_tasks := <[k := {| t_pc := TReturn; t_i := t_i t;
                                     t_idx := t_idx t |}]> ts;
                s_group_err := g; s_returns := rets; s_trace := tr |}
    | TReturn =>
        Some {| s_pc := pc; s_i := i; s_err := err;
                s_tasks := <[k := {| t_pc := TDone err; t_i := t_i t;
                                     t_idx := t_idx t |}]> ts;
                s_group_err := match g with
                               | Some first => Some first
                               | None => err
                               end;
                s_returns := rets ++ [err]; s_trace := tr |}
    | TDone _ => None
    end.
Proof.
  intros Hk. unfold step_task.
  cbn [s_pc s_i s_err s_tasks s_group_err s_returns s_trace].
  rewrite list_lookup_insert_eq by exact Hk.
  destruct (t_pc t); rewrite ?list_insert_insert_eq, ?app_nil_r;
    try reflexivity.
  destruct (ReadObject cfg (default 0 (t_idx t)) (w_read w k)); reflexivity.
Qed.

(** A goroutine that runs from its first statement to its return with
    no other goroutine in between reads the current index, calls ReadObject
    once for it, and returns nil when ReadObject returned nil and the error
    of ReadObject behind the prefix of the coordinator otherwise; the group
    takes this error when it holds none yet.  Nothing else changes. *)
Lemma run_goroutine (cfg : config) (w : world) (k : nat)
    (t : task) (s : state) :
  s_tasks s !! k = Some t -> t_pc t = TIdx ->
  run cfg w (replicate 5 (Task k)) s
  = after_goroutine cfg w k t (index_read w s (t_i t)) s.
Proof.
  intros Hk Hpc. pose proof (lookup_lt_Some _ _ _ Hk) as Hlen.
  destruct s as [pc i err ts g rets tr].
  cbn [s_tasks] in Hk, Hlen.
  unfold after_goroutine, index_read.
  cbn [s_pc s_i s_err s_tasks s_group_err s_returns s_trace].
  rewrite <- (list_insert_id ts k t Hk) at 1.
  cbn [replicate run step].
  rewrite step_task_at by exact Hlen. rewrite Hpc.
  change (default ?a (Some ?b)) with b.
  rewrite step_task_at by exact Hlen.
  cbn [t_pc t_i t_idx default from_option id]. cbn zeta.
  change (default ?a (Some ?b)) with b.
  rewrite step_task_at by exact Hlen. cbn [t_pc t_i t_idx].
  change (default ?a (Some ?b)) with b.
  destruct (snd (ReadObject cfg _ (w_read w k))) as [e|] eqn:Hr.
  - rewrite step_task_at by exact Hlen. cbn [t_pc t_i t_idx].
    change (default ?a (Some ?b)) with b.
    rewrite step_task_at by exact Hlen. cbn [t_pc t_i t_idx].
    change (default ?a (Some ?b)) with b.
    cbn [wrapped fmt.verb_w]. reflexivity.
  - rewrite step_task_at by exact Hlen. cbn [t_pc t_i t_idx].
    change (default ?a (Some ?b)) with b.
    rewrite step_task_at by exact Hlen. cbn [t_pc t_i t_idx].
    cbn [wrapped default from_option id]. reflexivity.
Qed.

(** X12: a goroutine that is at its first statement and then runs to its
    return with no other goroutine in between reads the current index, calls
    ReadObject once for it, and returns nil when ReadObject returned nil and
    the error of ReadObject behind the prefix of the coordinator otherwise;
    the group takes this error when it holds none yet; main and the other
    goroutines are where they were. *)
Theorem goroutine_uninterrupted (cfg : config) (w : world) (k : nat)
    (t : task) (s : state) :
  s_tasks s !! k = Some t -> t_pc t = TIdx ->
  let s' := run cfg w (replicate 5 (Task k)) s in
  let res := ReadObject cfg (index_read w s (t_i t)) (w_read w k) in
  s' = after_goroutine cfg w k t (index_read w s (t_i t)) s
  /\ s_returns s' = s_returns s ++ [wrapped (snd res)]
  /\ s_trace s' = s_trace s ++ fst res
  /\ (forall j, j <> k -> s_tasks s' !! j = s_tasks s !! j)
  /\ s_pc s' = s_pc s /\ s_i s' = s_i s.
Proof.
  intros Hk Hpc. cbn zeta. rewrite (run_goroutine cfg w k t s Hk Hpc).
  repeat split. intros j Hj. cbn. now apply list_lookup_insert_ne.
Qed.

Lemma goroutine_uninterrupted_witness :
  let w := quiet_world PerLoop second_read_of_0_fails in
  let s := state_of (main two_by_three w [Main]) in
  let t := {| t_pc := TIdx; t_i := 0; t_idx := None |} in
  let s' := run two_by_three w (replicate 5 (Task 0)) s in
  let res := ReadObject two_by_three (index_read w s (t_i t)) (w_read w 0%nat) in
  s' = after_goroutine two_by_three w 0 t (index_read w s (t_i t)) s
  /\ s_returns s' = s_returns s ++ [wrapped (snd res)]
  /\ s_trace s' = s_trace s ++ fst res
  /\ (forall j, j <> 0%nat -> s_tasks s' !! j = s_tasks s !! j)
  /\ s_pc s' = s_pc s /\ s_i s' = s_i s.
Proof.
  exact (goroutine_uninterrupted two_by_three
           (quiet_world PerLoop second_read_of_0_fails) 0
           {| t_pc := TIdx; t_i := 0; t_idx := None |}
           (state_of (main two_by_three
                        (quiet_world PerLoop second_read_of_0_fails) [Main]))
           eq_refl eq_refl).
Defined.

(** * The run in which the workers take their turns one after the other *)

Lemma run_app (cfg : config) (w : world) (a b : list actor) :
  forall s, run cfg w (a ++ b) s = run cfg w b (run cfg w a s).
Proof.
  induction a as [|x a IH]; intros s; [reflexivity|].
  cbn [app run]. apply IH.
Qed.

Lemma insert_last (l : list task) (x y : task) :
  <[length l := x]> (l ++ [y]) = l ++ [x].
Proof.
  induction l as [|z l IH]; [reflexivity|].
  change (z :: <[length l := x]> (l ++ [y]) = z :: l ++ [x]). now f_equal.
Qed.

Lemma step_main_spawn (cfg : config) (s : state) :
  s_pc s = MLoop -> s_i s < NumOfWorker cfg ->
  step_main cfg s
  = Some {| s_pc := MIncr; s_i := s_i s; s_err := s_err s;
            s_tasks := s_tasks s ++
              [{| t_pc := TIdx; t_i := s_i s; t_idx := None |}];
            s_group_err := s_group_err s; s_returns := s_returns s;
            s_trace := s_trace s ++ [EvGo (length (s_tasks s))] |}.
Proof.
  intros Hpc Hi. unfold step_main. rewrite Hpc.
  now rewrite (proj2 (Z.ltb_lt _ _) Hi).
Qed.

Lemma step_main_incr (cfg : config) (s : state) :
  s_pc s = MIncr ->
  step_main cfg s
  = Some {| s_pc := MLoop; s_i := s_i s + 1; s_err := s_err s;
            s_tasks := s_tasks s; s_group_err := s_group_err s;
            s_returns := s_returns s; s_trace := s_trace s |}.
Proof. intros Hpc. unfold step_main. now rewrite Hpc. Qed.

Lemma run_main (cfg : config) (w : world) (sched : list actor) (s s' : state) :
  step_main cfg s = Some s' ->
  run cfg w (Main :: sched) s = run cfg w sched s'.
Proof. intros H. cbn [run step]. now rewrite H. Qed.

Lemma eager_chunk (cfg : config) (w : world) (s : state) :
  s_pc s = MLoop -> s_i s < NumOfWorker cfg ->
  run cfg w (Main :: replicate 5 (Task (length (s_tasks s))) ++ [Main]) s
  = eager_turn cfg w s.
Proof.
  intros Hpc Hi.
  rewrite (run_main _ _ _ _ _ (step_main_spawn cfg s Hpc Hi)).
  rewrite run_app.
  rewrite (run_goroutine cfg w (length (s_tasks s))
             {| t_pc := TIdx; t_i := s_i s; t_idx := None |});
    [|apply list_lookup_middle; reflexivity | reflexivity].
  erewrite (run_main _ _ []) by (apply step_main_incr; reflexivity).
  unfold after_goroutine, index_read, eager_turn.
  cbn [run s_pc s_i s_err s_tasks s_group_err s_returns s_trace t_i].
  rewrite insert_last.
  now destruct (w_loopvar w).
Qed.

Lemma worker_returns_S (cfg : config) (w : world) (j : nat) :
  worker_returns cfg w (S j)
  = worker_returns cfg w j ++ [wrapped (snd (worker_result cfg w j))].
Proof. unfold worker_returns. now rewrite seq_S, map_app. Qed.

Lemma sequential_state_S (cfg : config) (w : world) (evs0 : list event)
    (j : nat) :
  eager_turn cfg w (sequential_state cfg w evs0 j)
  = sequential_state cfg w evs0 (S j).
Proof.
  unfold eager_turn, sequential_state.
  cbn [s_pc s_i s_err s_tasks s_group_err s_returns s_trace].
  rewrite length_map, length_seq. fold (worker_result cfg w j).
  rewrite worker_returns_S, first_error_snoc, !seq_S, map_app, flat_map_app.
  cbn [map flat_map Nat.add]. rewrite app_nil_r, <- !app_assoc.
  f_equal. lia.
Qed.

Lemma sequential_turns (cfg : config) (w : world) (evs0 : list event) :
  forall j : nat,
    Z.of_nat j <= Z.max 0 (NumOfWorker cfg) ->
    run cfg w
      (flat_map (fun k => Main :: replicate 5 (Task k) ++ [Main]) (seq 0 j))
      (sequential_state cfg w evs0 0)
    = sequential_state cfg w evs0 j.
Proof.
  induction j as [|j IH]; intros Hj; [reflexivity|].
  rewrite seq_S, flat_map_app, run_app, IH by lia.
  cbn [flat_map Nat.add]. rewrite app_nil_r.
  rewrite <- sequential_state_S.
  replace (Task j)
    with (Task (length (s_tasks (sequential_state cfg w evs0 j))))
    by (cbn [sequential_state s_tasks]; now rewrite length_map, length_seq).
  apply eager_chunk; [reflexivity | cbn [sequential_state s_i]; lia].
Qed.

Lemma all_done_finished (f : nat -> option error) (l : list nat) :
  all_done (map (fun k => {| t_pc := TDone (f k); t_i := Z.of_nat k;
                             t_idx := Some (Z.of_nat k) |}) l) = true.
Proof. induction l as [|k l IH]; [reflexivity | exact IH]. Qed.

Lemma create_client_no_error (cfg : config) (w : world)
    (env : gmap string string) (client : option storage.Client) :
  create_client cfg w = Ret (env, (client, None)) -> exists c, client = Some c.
Proof.
  unfold create_client. destruct (String.eqb (w_protocol w) "http").
  - unfold CreateHttpClient, GetTokenSource, storage.NewClient.
    destruct (w_token w); [discriminate|].
    destruct (w_new_client w (w_env w)); [discriminate|].
    intros [= _ <-]. now eexists.
  - rewrite CreateGrpcClient_returns. unfold storage.NewClient.
    destruct (w_new_client w _); [discriminate|].
    intros [= _ <-]. now eexists.
Qed.

Lemma main_setup_ready (cfg : config) (w : world) (env : gmap string string)
    (c : option storage.Client) :
  create_client cfg w = Ret (env, (c, None)) ->
  let evs0 := [EvSetRetry false;
               EvBucketCreate (BucketName cfg) (ProjectName cfg)] in
  main_setup cfg w = (evs0, Ret (sequential_state cfg w evs0 0)).
Proof.
  intros Hc. destruct (create_client_no_error _ _ _ _ Hc) as [c' ->].
  unfold main_setup. rewrite Hc. reflexivity.
Qed.

(** X13: for every configuration and every world in which the client can be
    built, main terminates under the schedule in which each goroutine runs to
    its end as soon as it is started.  Worker [k] then reads index [k], the
    goroutines return, in the order of their numbers, what their ReadObject
    returned behind the prefix of the coordinator, and the output is that of
    the setup, then for each worker its launch followed by its reads, then
    the one report. *)
Theorem main_sequential_run (cfg : config) (w : world)
    (env : gmap string string) (c : option storage.Client) :
  create_client cfg w = Ret (env, (c, None)) ->
  let n := Z.to_nat (NumOfWorker cfg) in
  exists s : state,
    main cfg w (eager_schedule n) = (s_trace s, Ret s)
    /\ s_pc s = MReturned
    /\ s_returns s = worker_returns cfg w n
    /\ map t_idx (s_tasks s) = map (fun k => Some (Z.of_nat k)) (seq 0 n)
    /\ s_trace s
       = [EvSetRetry false; EvBucketCreate (BucketName cfg) (ProjectName cfg)]
         ++ flat_map (fun k => EvGo k :: fst (worker_result cfg w k)) (seq 0 n)
         ++ [report_of (worker_returns cfg w n)].
Proof.
  intros Hc n. unfold main. rewrite (main_setup_ready _ _ _ _ Hc). cbn zeta.
  unfold eager_schedule. rewrite run_app, sequential_turns by lia.
  set (evs0 := [EvSetRetry false;
                EvBucketCreate (BucketName cfg) (ProjectName cfg)]).
  assert (step_main cfg (sequential_state cfg w evs0 n)
          = Some {| s_pc := MWait; s_i := Z.of_nat n;
                    s_err := s_err (sequential_state cfg w evs0 n);
                    s_tasks := s_tasks (sequential_state cfg w evs0 n);
                    s_group_err := first_error (worker_returns cfg w n);
                    s_returns := worker_returns cfg w n;
                    s_trace := s_trace (sequential_state cfg w evs0 n) |})
    as H1.
  { unfold step_main. cbn [sequential_state s_pc s_i].
    now rewrite (proj2 (Z.ltb_ge _ _)) by lia. }
  rewrite (run_main _ _ _ _ _ H1). clear H1.
  erewrite run_main;
    [|unfold step_main;
      cbn [sequential_state s_pc s_i s_err s_tasks s_group_err s_returns s_trace];
      rewrite all_done_finished; reflexivity].
  erewrite (run_main _ _ []);
    [|unfold step_main;
      cbn [s_pc s_i s_err s_tasks s_group_err s_returns s_trace];
      reflexivity].
  cbn [run]. eexists. split; [reflexivity|].
  cbn [s_pc s_i s_err s_tasks s_group_err s_returns s_trace].
  split; [reflexivity|]. split; [reflexivity|]. split.
  - rewrite map_map. reflexivity.
  - unfold report_of. now rewrite <- app_assoc.
Qed.

Lemma main_sequential_run_witness :
  exists s : state,
    main defaults forbidden (eager_schedule 48) = (s_trace s, Ret s)
    /\ s_pc s = MReturned
    /\ s_returns s = worker_returns defaults forbidden 48
    /\ map t_idx (s_tasks s) = map (fun k => Some (Z.of_nat k)) (seq 0 48)
    /\ s_trace s
       = [EvSetRetry false;
          EvBucketCreate "golang-grpc-test-princer-gcsfuse-us-central"
                         "gcs-fuse-test"]
         ++ flat_map (fun k => EvGo k :: fst (worker_result defaults forbidden k))
                     (seq 0 48)
         ++ [report_of (worker_returns defaults forbidden 48)].
Proof.
  exact (main_sequential_run defaults forbidden ∅
           (Some {| storage.c_option :=
                      storage.WithHTTPClient (storage.Http1 100 100) "prince" 0;
                    storage.c_retry := None |})
           eq_refl).
Defined.

(** * The index a goroutine reads *)

Lemma index_inv_step (cfg : config) (w : world) (a : actor) (s s' : state) :
  index_inv cfg s -> step cfg w a s = Some s' -> index_inv cfg s'.
Proof.
  unfold index_inv. intros (Hi & Hpc & Hts). destruct a as [|k]; cbn [step].
  - unfold step_main. destruct (s_pc s).
    + destruct (Z.ltb_spec (s_i s) (NumOfWorker cfg)); intros [= <-]; cbn.
      * split; [lia|]. split; [rewrite length_app; cbn; lia|].
        intros k t Hk. apply lookup_app_Some in Hk as [Hk|[Hlen Hk]];
          [now apply Hts|].
        apply list_lookup_singleton_Some in Hk as [Hk0 <-]. cbn.
        split; [lia | discriminate].
      * split; [lia|]. split; [lia | exact Hts].
    + intros [= <-]; cbn. split; [lia|]. split; [lia | exact Hts].
    + destruct (all_done (s_tasks s)); [|discriminate].
      intros [= <-]; cbn. split; [lia|]. split; [lia | exact Hts].
    + intros [= <-]; cbn. split; [lia|]. split; [lia | exact Hts].
    + discriminate.
  - unfold step_task. destruct (s_tasks s !! k) as [t|] eqn:Hk; [|discriminate].
    destruct (Hts k t Hk) as [Hown Hidx].
    pose proof (lookup_lt_Some _ _ _ Hk) as Hlt.
    assert (Hput : forall t',
               t_i t' = t_i t ->
               (forall idx, t_idx t' = Some idx ->
                            Z.of_nat k <= idx <= Z.max 0 (NumOfWorker cfg)) ->
               forall j tj, <[k := t']> (s_tasks s) !! j = Some tj ->
                 t_i tj = Z.of_nat j
                 /\ forall idx, t_idx tj = Some idx ->
                      Z.of_nat j <= idx <= Z.max 0 (NumOfWorker cfg)).
    { intros t' Hi' Hidx' j tj Hj.
      destruct (decide (j = k)) as [->|Hne].
      - rewrite list_lookup_insert_eq in Hj by exact Hlt.
        injection Hj as <-. split; [congruence | exact Hidx'].
      - rewrite list_lookup_insert_ne in Hj by congruence. now apply Hts. }
    destruct (t_pc t);
      try destruct (ReadObject cfg (default 0 (t_idx t)) (w_read w k));
      try discriminate; intros [= <-]; cbn; rewrite length_insert;
      (split; [exact Hi|]); (split; [exact Hpc|]);
      apply Hput; try reflexivity; try exact Hidx.
    cbn. intros idx [= <-].
    destruct (w_loopvar w); destruct (s_pc s); lia.
Qed.

Lemma index_inv_main (cfg : config) (w : world) (sched : list actor)
    (s : state) :
  snd (main cfg w sched) = Ret s -> index_inv cfg s.
Proof.
  intros H. apply main_running in H as (evs & s0 & Hsetup & ->).
  assert (index_inv cfg s0) as H0.
  { unfold main_setup in Hsetup.
    destruct (create_client cfg w) as [[env [client err]]|msg|msg];
      [|discriminate..].
    destruct (storage.SetRetry client _ _); [|discriminate..].
    injection Hsetup as _ <-. unfold index_inv. cbn.
    split; [lia|]. split; [reflexivity | intros k t Hk; discriminate]. }
  clear Hsetup. revert s0 H0.
  induction sched as [|a sched IH]; intros s0 H0; [exact H0|].
  cbn [run]. apply IH.
  destruct (step cfg w a s0) as [s'|] eqn:Hstep; [|exact H0].
  eapply index_inv_step; eassumption.
Qed.

(** X14: under every schedule and either scoping of the loop variable, the
    index goroutine [k] reads lies between [k] and [NumOfWorker]: it is never
    the index of an earlier shard, and the only index it can read that is not
    a shard index is [NumOfWorker] itself. *)
Theorem goroutine_index_bounds (cfg : config) (w : world)
    (sched : list actor) (s : state) (k : nat) (t : task) (idx : Z) :
  snd (main cfg w sched) = Ret s ->
  s_tasks s !! k = Some t -> t_idx t = Some idx ->
  Z.of_nat k <= idx <= NumOfWorker cfg.
Proof.
  intros Hmain Hk Hidx.
  destruct (index_inv_main _ _ _ _ Hmain) as (Hi & Hpc & Hts).
  destruct (Hts k t Hk) as [_ Hb]. specialize (Hb idx Hidx).
  pose proof (lookup_lt_Some _ _ _ Hk) as Hlt.
  destruct (s_pc s); lia.
Qed.

Lemma goroutine_index_bounds_witness : 7 <= 48 <= 48.
Proof.
  exact (goroutine_index_bounds defaults nothing_to_read
           (sequential_schedule 48)
           (state_of (main defaults nothing_to_read (sequential_schedule 48)))
           7 {| t_pc := TDone (Some "while reading object: while creating reader object: storage: object doesn't exist");
                t_i := 7; t_idx := Some 48 |} 48 eq_refl eq_refl eq_refl).
Defined.

(** X15: where every iteration of the launch loop has its own [i], a
    goroutine that has read its index has read the number of its own
    iteration, under every schedule. *)
Theorem goroutine_index_per_iteration (cfg : config) (w : world)
    (sched : list actor) (s : state) (k : nat) (t : task) (idx : Z) :
  w_loopvar w = PerIteration ->
  snd (main cfg w sched) = Ret s ->
  s_tasks s !! k = Some t -> t_idx t = Some idx ->
  idx = Z.of_nat k.
Proof.
  intros Hlv Hmain Hk Hidx.
  destruct (launch_inv_main _ _ _ _ Hmain) as [_ Hts].
  destruct (Hts k t Hk) as [_ [H|H]]; [exact Hlv|congruence..].
Qed.

Lemma goroutine_index_per_iteration_witness : 1 = Z.of_nat 1.
Proof.
  exact (goroutine_index_per_iteration two_by_three
           (quiet_world PerIteration second_read_of_0_fails)
           (sequential_schedule 2)
           (state_of (main two_by_three
                        (quiet_world PerIteration second_read_of_0_fails)
                        (sequential_schedule 2)))
           1 {| t_pc := TDone None; t_i := 1; t_idx := Some 1 |} 1
           eq_refl eq_refl eq_refl eq_refl).
Defined.

(** X16: with one [i] for the whole loop, a goroutine that reads its index
    after main has left the launch loop reads [NumOfWorker], whatever its own
    number and whatever happened before. *)
Theorem late_goroutine_reads_NumOfWorker (cfg : config) (w : world)
    (sched : list actor) (s : state) (k : nat) (t : task) :
  w_loopvar w = PerLoop ->
  snd (main cfg w sched) = Ret s ->
  s_pc s <> MLoop -> s_pc s <> MIncr ->
  s_tasks s !! k = Some t -> t_pc t = TIdx ->
  exists s' t',
    step cfg w (Task k) s = Some s'
    /\ s_tasks s' !! k = Some t'
    /\ t_pc t' = TCall
    /\ t_idx t' = Some (NumOfWorker cfg).
Proof.
  intros Hlv Hmain Hloop Hincr Hk Hpc.
  destruct (index_inv_main _ _ _ _ Hmain) as (Hi & Hlen & _).
  destruct (launch_inv_main _ _ _ _ Hmain) as [Hmax _].
  pose proof (lookup_lt_Some _ _ _ Hk) as Hlt.
  assert (s_i s = NumOfWorker cfg) as Hw by (destruct (s_pc s); lia || congruence).
  cbn [step]. unfold step_task. rewrite Hk, Hpc, Hlv.
  eexists _, _. split; [reflexivity|]. cbn.
  rewrite list_lookup_insert_eq by exact Hlt.
  split; [reflexivity|]. cbn. split; [reflexivity | now rewrite Hw].
Qed.

Lemma late_goroutine_reads_NumOfWorker_witness :
  exists s' t',
    step defaults nothing_to_read (Task 3)
      (state_of (main defaults nothing_to_read (replicate 97 Main))) = Some s'
    /\ s_tasks s' !! 3%nat = Some t'
    /\ t_pc t' = TCall
    /\ t_idx t' = Some (NumOfWorker defaults).
Proof.
  apply (late_goroutine_reads_NumOfWorker defaults nothing_to_read
           (replicate 97 Main)
           (state_of (main defaults nothing_to_read (replicate 97 Main)))
           3 {| t_pc := TIdx; t_i := 3; t_idx := None |}).
  - reflexivity.
  - vm_compute. reflexivity.
  - vm_compute. discriminate.
  - vm_compute. discriminate.
  - vm_compute. reflexivity.
  - reflexivity.
Defined.

(** X17: CreateHttpClient fails exactly when the token source or the client
    constructor fails.  An error of the token source is returned behind its
    own prefix, and then the client constructor is not consulted; an error
    of the constructor is returned as it is.  The client is nil exactly when
    the error is not, and a client that is returned is an HTTP/2 client when
    that was asked for and an HTTP/1 client with both caps otherwise, with
    the user agent prince and no timeout. *)
Theorem CreateHttpClient_result (cfg : config) (w : world) (isHttp2 : bool) :
  let res := CreateHttpClient cfg w isHttp2 in
  snd res
  = match w_token w with
    | Some err => Some ("while generating tokenSource, " +:+ err)
    | None => w_new_client w (w_env w)
    end
  /\ (fst res = None <-> snd res <> None)
  /\ forall c, fst res = Some c ->
       storage.c_retry c = None
       /\ storage.c_option c
          = storage.WithHTTPClient
              (if isHttp2
               then storage.Http2 (MaxConnsPerHost cfg)
               else storage.Http1 (MaxConnsPerHost cfg)
                                  (MaxIdelConnsPerHost cfg))
              "prince" 0.
Proof.
  cbn zeta. unfold CreateHttpClient, GetTokenSource, storage.NewClient.
  destruct (w_token w) as [e|]; cbn [fst snd fmt.verb_v].
  - split; [reflexivity|]. split; [|discriminate].
    split; [discriminate | reflexivity].
  - destruct (w_new_client w (w_env w)) as [e|]; cbn [fst snd].
    + split; [reflexivity|]. split; [|discriminate].
      split; [discriminate | reflexivity].
    + split; [reflexivity|]. split; [split; [discriminate | congruence]|].
      intros c [= <-]. destruct isHttp2; split; reflexivity.
Qed.
